(** * bit-torrent: the torrent package (metadata, tracker request, start-up)

    A shallow embedding of [torrent/torrent.go], of the tracker request file
    of the same package, and of the start-up part of [main], together with
    the properties that their documentation states about them.

    Conventions.
    - A Go [string] is a byte sequence: [string]; [[]byte(s)] is
      [list_byte_of_string s] and [string(b)] is [string_of_list_byte b].
    - [[20]byte] is [vec byte 20]; its zero value is twenty [x00].
    - Go [int] values that the code only copies are [Z]; lengths and loop
      counters, which are never negative, are [nat].
    - An [error] is represented by its message; [nil] is [None].  A Go
      function returning [(T, error)] returns a pair [T * option error], the
      zero value of [T] written out where the code returns it.
    - Functions of other packages (the bencode codec, the peer client, the
      downloader, the Go library) are the fields of the class [Externals]:
      the theorems hold for every behaviour of theirs. *)

From Stdlib Require Import ZArith Strings.String Strings.Ascii Strings.Byte Lia.
From stdpp Require Import base option list vector strings gmap sorting pretty.

(** ** Bytes, arrays and slices *)

Abbreviation Array20 := (vec byte 20).

Definition error : Type := string.

(** The zero value of [[n]byte]. *)
Definition zero_array (n : nat) : vec byte n := vreplicate n x00.

(** [copy(dst[:], src)]: overwrites the first [min (len dst) (len src)]
    bytes of [dst] with those of [src]. *)
Fixpoint copy {n : nat} (dst : vec byte n) (src : list byte) : vec byte n :=
  match dst in Vector.t _ m return vec byte m with
  | [#] => [#]
  | d ::: dst' =>
      match src with
      | [] => d ::: dst'
      | b :: src' => b ::: copy dst' src'
      end
  end.

(** [buf[lo:hi]] for [lo <= hi <= len buf] (outside that range Go panics;
    [splitLoop_in_range] shows that the only user stays inside). *)
Definition slice (buf : list byte) (lo hi : nat) : list byte :=
  take (hi - lo) (drop lo buf).

(** ** net/url: query values and their encoding

    The part of Go's [net/url] that [buildTrackerURL] relies on.  [Values] is
    a map from a key to its list of values; [Encode] writes the pairs sorted
    by key, each key and value escaped as a query component.  Parsing a URL
    and printing it back are left to [url_Parse] and [URL_String] below. *)

Module url.

Abbreviation Values := (gmap string (list string)).

Definition upperhex (n : N) : ascii :=
  default "0"%char (String.get (N.to_nat n) "0123456789ABCDEF").

Definition is_alnum (c : ascii) : bool :=
  let n := N_of_ascii c in
  ((97 <=? n) && (n <=? 122) || (65 <=? n) && (n <=? 90)
   || (48 <=? n) && (n <=? 57))%N.

(** [shouldEscape(c, encodeQueryComponent)] *)
Definition shouldEscape (c : ascii) : bool :=
  if is_alnum c then false
  else if bool_decide (c ∈ ["-"; "_"; "."; "~"]%char) then false
  else true.

Definition escape_char (c : ascii) : string :=
  if shouldEscape c then
    if bool_decide (c = " "%char) then "+"
    else
      let n := N_of_ascii c in
      String "%" (String (upperhex (N.shiftr n 4))
                    (String (upperhex (N.land n 15)) ""))
  else String c "".

Fixpoint QueryEscape (s : string) : string :=
  match s with
  | EmptyString => ""
  | String c s' => escape_char c +:+ QueryEscape s'
  end.

(** The keys in ascending byte order. *)
Definition sorted_keys (v : Values) : list string :=
  merge_sort String.le (elements (dom v)).

(** One [key=value] pair appended to the buffer, after a ["&"] when the
    buffer already holds a pair. *)
Definition write_pair (keyEscaped : string) (buf v : string) : string :=
  (if bool_decide (0 < String.length buf) then buf +:+ "&" else buf)
    +:+ keyEscaped +:+ "=" +:+ QueryEscape v.

Definition Encode (v : Values) : string :=
  foldl (fun buf k => foldl (write_pair (QueryEscape k)) buf (default [] (v !! k)))
        "" (sorted_keys v).

(** A parsed URL.  The code assigns [RawQuery]; the other fields are
    carried from [Parse] to [String] untouched. *)
Record URL := mkURL {
  Scheme : string;
  Opaque : string;
  User : option (string * option string);
  Host : string;
  Path : string;
  RawPath : string;
  ForceQuery : bool;
  RawQuery : string;
  Fragment : string;
  RawFragment : string
}.

(** [u.RawQuery = q] *)
Definition set_RawQuery (q : string) (u : URL) : URL :=
  mkURL (Scheme u) (Opaque u) (User u) (Host u) (Path u) (RawPath u)
        (ForceQuery u) q (Fragment u) (RawFragment u).

End url.

(** ** The metadata structures of torrent.go *)

Record TorrentFile := mkTorrentFile {
  Announce : string;
  InfoHash : Array20;
  PieceHashes : list Array20;
  PieceLength : Z;
  Length : Z;
  Name : string
}.

Record bencodeInfo := mkBencodeInfo {
  Pieces : string;
  Info_PieceLength : Z;
  Info_Length : Z;
  Info_Name : string
}.

Record bencodeTorrent := mkBencodeTorrent {
  Bto_Announce : string;
  Info : bencodeInfo
}.

(** [TorrentFile{}] *)
Definition TorrentFile_zero : TorrentFile :=
  mkTorrentFile "" (zero_array 20) [] 0 0 "".

(** ** splitPieceHashes *)

Definition hashLen : nat := 20.

(** The loop [for i := 0; i < numHashes; i++ { copy(hashes[i][:], ...) }],
    with [n] the number of iterations that remain. *)
Fixpoint splitLoop (buf : list byte) (n i : nat) (hashes : list Array20)
  : list Array20 :=
  match n with
  | 0 => hashes
  | S n' =>
      splitLoop buf n' (S i)
        (alter (fun h => copy h (slice buf (i * hashLen) ((i + 1) * hashLen)))
               i hashes)
  end.

Definition malformed_pieces (len : nat) : error :=
  "Received malformed pieces of length " +:+ pretty len.

Definition splitPieceHashes (i : bencodeInfo) : list Array20 * option error :=
  let buf := list_byte_of_string (Pieces i) in
  if decide (length buf mod hashLen ≠ 0) then
    ([], Some (malformed_pieces (length buf)))
  else
    let numHashes := length buf / hashLen in
    let hashes := replicate numHashes (zero_array 20) in
    (splitLoop buf numHashes 0 hashes, None).

(** ** The other packages

    [peer2peer.Torrent] is declared in another package; its fields are those
    of the composite literal in [GetTorrent]. *)

Module peer2peer.

Record Torrent (Peer : Type) := mkTorrent {
  Peers : list Peer;
  PeerID : Array20;
  InfoHash : Array20;
  PieceHashes : list Array20;
  PieceLength : Z;
  Length : Z;
  Name : string
}.

Arguments mkTorrent {Peer}.
Arguments Peers {Peer}.
Arguments PeerID {Peer}.
Arguments InfoHash {Peer}.
Arguments PieceHashes {Peer}.
Arguments PieceLength {Peer}.
Arguments Length {Peer}.
Arguments Name {Peer}.

(** [peer2peer.Torrent{}] *)
Definition Torrent_zero {Peer : Type} : Torrent Peer :=
  mkTorrent [] (zero_array 20) (zero_array 20) [] 0 0 "".

End peer2peer.

Record bencodeTrackerResp := mkBencodeTrackerResp {
  Interval : Z;
  Resp_Peers : string
}.

(** What the rest of the program and the Go library do, as far as this
    package can observe it.  A result [A + error] is [inl a] when the call
    returns a [nil] error and [inr e] otherwise. *)
Class Externals := {
  (** [peers.Peer] and [*client.Client] *)
  Peer : Type;
  Client : Type;
  (** [rand.Read(b)] for [len b = n]: the bytes stored into [b], and the error *)
  rand_Read : nat -> list byte * option error;
  sha1_Sum : list byte -> Array20;
  (** [bencode.Marshal(&buf, info)]: the bytes written *)
  bencode_Marshal : bencodeInfo -> list byte + error;
  (** [bencode.Unmarshal(r, &v)] at the two types it is used at *)
  bencode_Unmarshal_torrent : list byte -> bencodeTorrent + error;
  bencode_Unmarshal_tracker : list byte -> bencodeTrackerResp + error;
  peers_Unmarshal : list byte -> list Peer * option error;
  url_Parse : string -> url.URL + error;
  URL_String : url.URL -> string;
  (** [c.Get(url)] with its 15 second timeout: the response body *)
  http_Get : string -> list byte + error;
  (** [client.New(peer, peerID, infoHash)]: dial and handshake *)
  client_New : Peer -> Array20 -> Array20 -> Client + error;
  (** [torrent.Download(clients)]; it is given no path and touches no file *)
  Download : peer2peer.Torrent Peer -> list Client -> list byte + error;
  (** failures of the operating system other than a missing file: opening
      and creating a path, and a write of which only [n] bytes succeed *)
  open_err : string -> option error;
  create_err : string -> option error;
  write_err : string -> list byte -> option (nat * error)
}.

(** ** The world: files and the calls that leave the process *)

Inductive Event `{Externals} :=
| EvHttpGet (u : string)
| EvDial (p : Peer)
| EvCreate (path : string)
| EvWrite (path : string) (data : list byte)
| EvClose (path : string).

Record World `{Externals} := mkWorld {
  fs : gmap string (list byte);
  trace : list Event
}.

Arguments mkWorld {_} _ _.

Section Program.

Context `{Externals}.

Definition is_dial (e : Event) : bool :=
  match e with EvDial _ => true | _ => false end.

Definition is_file_event (e : Event) : bool :=
  match e with EvCreate _ | EvWrite _ _ | EvClose _ => true | _ => false end.

(** State passing over the world. *)
Definition M (A : Type) : Type := World -> A * World.

#[global] Instance M_ret : MRet M := fun A a w => (a, w).
#[global] Instance M_bind : MBind M :=
  fun A B f m w => let '(a, w') := m w in f a w'.

Definition emit (e : Event) : M unit :=
  fun w => (tt, mkWorld (fs w) (trace w ++ [e])).

Definition modify_fs
  (f : gmap string (list byte) -> gmap string (list byte)) : M unit :=
  fun w => (tt, mkWorld (f (fs w)) (trace w)).

Definition get_fs : M (gmap string (list byte)) :=
  fun w => (fs w, w).

(** ** Files *)

Definition no_such_file (path : string) : error :=
  "open " +:+ path +:+ ": no such file or directory".

(** [os.Open(path)] followed by reading the file: its contents. *)
Definition os_Open (path : string) : M (list byte + error) :=
  match open_err path with
  | Some e => mret (inr e)
  | None =>
      files ← get_fs;
      match files !! path with
      | Some data => mret (inl data)
      | None => mret (inr (no_such_file path))
      end
  end.

(** [os.Create(path)]: creates the file, or truncates the one that is
    there; the handle stands at offset 0. *)
Definition os_Create (path : string) : M (option error) :=
  _ ← emit (EvCreate path);
  match create_err path with
  | Some e => mret (Some e)
  | None => _ ← modify_fs (<[path := []]>); mret None
  end.

(** [outFile.Write(buf)] on the handle of [path], which stands at the end of
    the file. *)
Definition File_Write (path : string) (buf : list byte) : M (option error) :=
  _ ← emit (EvWrite path buf);
  match write_err path buf with
  | Some (n, e) =>
      _ ← modify_fs (alter (fun old => old ++ take n buf) path); mret (Some e)
  | None =>
      _ ← modify_fs (alter (fun old => old ++ buf) path); mret None
  end.

Definition File_Close (path : string) : M unit := emit (EvClose path).

(** ** hash, toTorrentFile, Open *)

Definition hash (i : bencodeInfo) : Array20 * option error :=
  match bencode_Marshal i with
  | inr e => (zero_array 20, Some e)
  | inl buf => (sha1_Sum buf, None)
  end.

Definition toTorrentFile (bto : bencodeTorrent) : TorrentFile * option error :=
  let '(infoHash, err) := hash (Info bto) in
  match err with
  | Some e => (TorrentFile_zero, Some e)
  | None =>
      let '(pieceHashes, err) := splitPieceHashes (Info bto) in
      match err with
      | Some e => (TorrentFile_zero, Some e)
      | None =>
          (mkTorrentFile (Bto_Announce bto) infoHash pieceHashes
             (Info_PieceLength (Info bto)) (Info_Length (Info bto))
             (Info_Name (Info bto)), None)
      end
  end.

Definition Open (path : string) : M (TorrentFile * option error) :=
  r ← os_Open path;
  match r with
  | inr e => mret (TorrentFile_zero, Some e)
  | inl data =>
      match bencode_Unmarshal_torrent data with
      | inr e => mret (TorrentFile_zero, Some e)
      | inl bto => mret (toTorrentFile bto)
      end
  end.

(** ** The tracker request *)

(** Port to listen on *)
Definition Port : N := 6881.

(** [strconv.Itoa] *)
Definition strconv_Itoa (n : Z) : string := pretty n.

(** [string(a[:])] for an array [a] *)
Definition array_string {n : nat} (a : vec byte n) : string :=
  string_of_list_byte (vec_to_list a).

(** The [url.Values] literal of [buildTrackerURL]. *)
Definition tracker_params (t : TorrentFile) (peerID : Array20) (port : N)
  : url.Values :=
  {[ "info_hash" := [array_string (InfoHash t)];
     "peer_id" := [array_string peerID];
     "port" := [strconv_Itoa (Z.of_N port)];
     "uploaded" := ["0"];
     "downloaded" := ["0"];
     "compact" := ["1"];
     "left" := ["0"] ]}.

(** Methods on [*TorrentFile] return, next to their results, the value that
    the receiver holds when they return. *)
Definition buildTrackerURL (t : TorrentFile) (peerID : Array20) (port : N)
  : (string * option error) * TorrentFile :=
  match url_Parse (Announce t) with
  | inr e => (("", Some e), t)
  | inl base =>
      let params := tracker_params t peerID port in
      let base := url.set_RawQuery (url.Encode params) base in
      ((URL_String base, None), t)
  end.

(** [c.Get(url)] *)
Definition Client_Get (u : string) : M (list byte + error) :=
  _ ← emit (EvHttpGet u); mret (http_Get u).

Definition requestPeers (t : TorrentFile) (peerID : Array20) (port : N)
  : M ((list Peer * option error) * TorrentFile) :=
  let '((u, err), t) := buildTrackerURL t peerID port in
  match err with
  | Some e => mret (([], Some e), t)
  | None =>
      resp ← Client_Get u;
      match resp with
      | inr e => mret (([], Some e), t)
      | inl body =>
          match bencode_Unmarshal_tracker body with
          | inr e => mret (([], Some e), t)
          | inl trackerResp =>
              mret (peers_Unmarshal (list_byte_of_string (Resp_Peers trackerResp)), t)
          end
      end
  end.

(** ** GetTorrent *)

Definition GetTorrent (t : TorrentFile)
  : M ((peer2peer.Torrent Peer * option error) * TorrentFile) :=
  let '(random, err) := rand_Read 20 in
  let peerID := copy (zero_array 20) random in
  match err with
  | Some e => mret ((peer2peer.Torrent_zero, Some e), t)
  | None =>
      '((peers, err), t) ← requestPeers t peerID Port;
      match err with
      | Some e => mret ((peer2peer.Torrent_zero, Some e), t)
      | None =>
          let torrent :=
            peer2peer.mkTorrent peers peerID (InfoHash t) (PieceHashes t)
              (PieceLength t) (Length t) (Name t) in
          mret ((torrent, None), t)
      end
  end.

(** ** ConnectToPeers

    One goroutine per peer dials and, when the handshake succeeds, appends
    its client to [clients] under the mutex; [wg.Wait()] returns when all of
    them are done.  A goroutine is at its dial, at its append, or done; a
    schedule names the goroutine that takes the next step.  The goroutine
    that feeds [keepAliveChan] shares nothing with them and is left out. *)

Inductive Goroutine :=
| Dialing (p : Peer)
| Appending (c : Client)
| Finished.

Record ConnState := mkConnState {
  clients : list Client;
  goroutines : list Goroutine
}.

Definition is_finished (g : Goroutine) : bool :=
  match g with Finished => true | _ => false end.

Definition step (torrent : peer2peer.Torrent Peer) (st : ConnState) (k : nat)
  : M ConnState :=
  match goroutines st !! k with
  | Some (Dialing p) =>
      _ ← emit (EvDial p);
      match client_New p (peer2peer.PeerID torrent) (peer2peer.InfoHash torrent) with
      | inr _ => mret (mkConnState (clients st) (<[k := Finished]> (goroutines st)))
      | inl c => mret (mkConnState (clients st) (<[k := Appending c]> (goroutines st)))
      end
  | Some (Appending c) =>
      mret (mkConnState (clients st ++ [c]) (<[k := Finished]> (goroutines st)))
  | Some Finished | None => mret st
  end.

Fixpoint run (torrent : peer2peer.Torrent Peer) (sched : list nat)
  (st : ConnState) : M ConnState :=
  match sched with
  | [] => mret st
  | k :: sched' => st' ← step torrent st k; run torrent sched' st'
  end.

Definition no_peers : error := "failed to connect to any peers".

(** [None]: the schedule ends with [wg.Wait()] still waiting. *)
Definition ConnectToPeers (sched : list nat) (torrent : peer2peer.Torrent Peer)
  : M (option (list Client * option error)) :=
  st ← run torrent sched (mkConnState [] (Dialing <$> peer2peer.Peers torrent));
  if forallb is_finished (goroutines st) then
    if decide (length (clients st) = 0) then mret (Some ([], Some no_peers))
    else mret (Some (clients st, None))
  else mret None.

(** The schedule that runs the goroutines of [n] peers one after the other. *)
Definition sequential (n : nat) : list nat :=
  flat_map (fun k => [k; k]) (seq 0 n).

(** The client of a peer that completes the handshake. *)
Definition handshake (torrent : peer2peer.Torrent Peer) (p : Peer)
  : option Client :=
  match client_New p (peer2peer.PeerID torrent) (peer2peer.InfoHash torrent) with
  | inl c => Some c
  | inr _ => None
  end.

(** The clients of the peers that complete the handshake, in the order of
    [torrent.Peers]. *)
Definition connected (torrent : peer2peer.Torrent Peer) : list Client :=
  omap (handshake torrent) (peer2peer.Peers torrent).

(** The client that a goroutine has still to append, and the state that its
    next step leaves it in. *)
Definition pending (torrent : peer2peer.Torrent Peer) (g : Goroutine)
  : option Client :=
  match g with
  | Dialing p => handshake torrent p
  | Appending c => Some c
  | Finished => None
  end.

Definition advance (torrent : peer2peer.Torrent Peer) (g : Goroutine)
  : Goroutine :=
  match g with
  | Dialing p =>
      match handshake torrent p with
      | Some c => Appending c
      | None => Finished
      end
  | Appending _ | Finished => Finished
  end.

(** ** DownloadToFile *)

Definition DownloadToFile (t : TorrentFile) (path : string)
  (torrent : peer2peer.Torrent Peer) (clients : list Client)
  : M (option error * TorrentFile) :=
  match Download torrent clients with
  | inr e => mret (Some e, t)
  | inl buf =>
      err ← os_Create path;
      match err with
      | Some e => mret (Some e, t)
      | None =>
          err ← File_Write path buf;
          _ ← File_Close path;
          match err with
          | Some e => mret (Some e, t)
          | None => mret (None, t)
          end
      end
  end.

(** ** main, up to the start of seeding *)

Inductive Outcome :=
| Fatal (e : error)
| Waiting
| Seeding (clients : list Client) (torrent : peer2peer.Torrent Peer)
          (outPath : string).

Definition main (inPath outPath : string) (sched : list nat) : M Outcome :=
  '(tf, err) ← Open inPath;
  match err with
  | Some e => mret (Fatal e)
  | None =>
      '((tor, err), tf) ← GetTorrent tf;
      match err with
      | Some e => mret (Fatal e)
      | None =>
          r ← ConnectToPeers sched tor;
          match r with
          | None => mret Waiting
          | Some (clients, Some e) => mret (Fatal e)
          | Some (clients, None) =>
              '(err, tf) ← DownloadToFile tf outPath tor clients;
              match err with
              | Some e => mret (Fatal e)
              | None => mret (Seeding clients tor outPath)
              end
          end
      end
  end.

(** ** Observations on traces and on the states of ConnectToPeers *)

(** The peers that a list of events dials, in order. *)
Definition dialed (evs : list Event) : list Peer :=
  omap (fun ev => match ev with EvDial p => Some p | _ => None end) evs.

(** The peer that a goroutine has still to dial. *)
Definition undialed (g : Goroutine) : option Peer :=
  match g with Dialing p => Some p | _ => None end.

(** The state in which [ConnectToPeers] starts its goroutines. *)
Definition initial (torrent : peer2peer.Torrent Peer) : ConnState :=
  mkConnState [] (Dialing <$> peer2peer.Peers torrent).

(** The bytes that may stand in a query string as they are, and the four
    that the encoding itself writes. *)
Definition query_char (c : ascii) : bool :=
  url.is_alnum c || bool_decide (c ∈ ["-"; "_"; "."; "~"; "%"; "+"; "&"; "="]%char).

Fixpoint string_forall (P : ascii -> bool) (s : string) : bool :=
  match s with
  | EmptyString => true
  | String c s' => P c && string_forall P s'
  end.

End Program.

(** ** A small instance, for running the definitions

    Peers and clients are numbers; a peer answers the handshake when its
    number is even; the tracker lists peers 1 to 4; the digest is a stand-in
    that keeps the first twenty bytes. *)

Definition test_Parse (s : string) : url.URL + error :=
  if decide (s = ":") then inr "missing protocol scheme"%string
  else inl (url.mkURL "http" "" None "tracker" s "" false "" "" "").

Definition test_externals : Externals := {|
  Peer := nat;
  Client := nat;
  rand_Read := fun n => (replicate n "*"%byte, None);
  sha1_Sum := copy (zero_array 20);
  bencode_Marshal := fun i => inl (list_byte_of_string (Info_Name i +:+ Pieces i));
  bencode_Unmarshal_torrent := fun data =>
    match data with
    | [] => inr "EOF"%string
    | _ => inl (mkBencodeTorrent "/announce"
                  (mkBencodeInfo (string_of_list_byte data) 4 8 "file"))
    end;
  bencode_Unmarshal_tracker := fun body =>
    inl (mkBencodeTrackerResp 900 (string_of_list_byte body));
  peers_Unmarshal := fun l => (Byte.to_nat <$> l, None);
  url_Parse := test_Parse;
  URL_String := fun u =>
    url.Scheme u +:+ "://" +:+ url.Host u +:+ url.Path u +:+ "?" +:+ url.RawQuery u;
  http_Get := fun _ => inl [x01; x02; x03; x04];
  client_New := fun p _ _ =>
    if Nat.even p then inl (100 + p) else inr "handshake failed"%string;
  Download := fun tor cs =>
    match cs with
    | [] => inr "no peers left"%string
    | _ => inl (replicate (Z.to_nat (peer2peer.Length tor)) "d"%byte)
    end;
  open_err := fun _ => None;
  create_err := fun path =>
    if decide (path = "/") then Some "open /: is a directory"%string else None;
  write_err := fun _ _ => None
|}.

Definition test_pieces : string :=
  "aaaaaaaaaaaaaaaaaaaabbbbbbbbbbbbbbbbbbbb".

Definition test_info : bencodeInfo := mkBencodeInfo test_pieces 4 8 "file".

Definition test_world : World (H := test_externals) :=
  mkWorld {[ "in.torrent" := list_byte_of_string test_pieces;
             "out" := [x01; x02] ]} [].

Definition test_file : TorrentFile :=
  mkTorrentFile "/announce" (zero_array 20) [] 4 8 "file".

Definition test_torrent : peer2peer.Torrent nat :=
  peer2peer.mkTorrent [1; 2; 3; 4] (zero_array 20) (zero_array 20) [] 4 8 "file".

(** A second instance: the announce URL may carry a query of its own, no
    peer answers the handshake, the download succeeds all the same, and the
    disk is full after three bytes of the file [full]. *)

Definition test_Parse_query (s : string) : url.URL + error :=
  if decide (s = "/announce?passkey=abc") then
    inl (url.mkURL "http" "" None "tracker" "/announce" "" false
           "passkey=abc" "" "")
  else test_Parse s.

Definition test_externals_offline : Externals := {|
  Peer := nat;
  Client := nat;
  rand_Read := fun n => (replicate n "*"%byte, None);
  sha1_Sum := copy (zero_array 20);
  bencode_Marshal := fun i => inl (list_byte_of_string (Info_Name i +:+ Pieces i));
  bencode_Unmarshal_torrent := fun data =>
    match data with
    | [] => inr "EOF"%string
    | _ => inl (mkBencodeTorrent "/announce"
                  (mkBencodeInfo (string_of_list_byte data) 4 8 "file"))
    end;
  bencode_Unmarshal_tracker := fun body =>
    inl (mkBencodeTrackerResp 900 (string_of_list_byte body));
  peers_Unmarshal := fun l => (Byte.to_nat <$> l, None);
  url_Parse := test_Parse_query;
  URL_String := fun u =>
    url.Scheme u +:+ "://" +:+ url.Host u +:+ url.Path u +:+ "?" +:+ url.RawQuery u;
  http_Get := fun _ => inl [x01; x02; x03; x04];
  client_New := fun _ _ _ => inr "connection refused"%string;
  Download := fun tor _ =>
    inl (replicate (Z.to_nat (peer2peer.Length tor)) "d"%byte);
  open_err := fun _ => None;
  create_err := fun _ => None;
  write_err := fun path _ =>
    if decide (path = "full") then Some (3, "no space left on device"%string)
    else None
|}.

Definition test_world_offline : World (H := test_externals_offline) :=
  mkWorld {[ "in.torrent" := list_byte_of_string test_pieces;
             "full" := [x01; x02; x03; x04; x05] ]} [].

Definition test_file_query : TorrentFile :=
  mkTorrentFile "/announce?passkey=abc" (zero_array 20) [] 4 8 "file".

Definition test_file_large : TorrentFile :=
  mkTorrentFile "/announce" (zero_array 20) [zero_array 20] 16384 99999 "other".

(** The torrent that [main] builds from [in.torrent] in the first instance. *)
Definition test_seeded : peer2peer.Torrent nat :=
  peer2peer.mkTorrent [1; 2; 3; 4]
    (copy (zero_array 20) (replicate 20 "*"%byte))
    (copy (zero_array 20) (list_byte_of_string "fileaaaaaaaaaaaaaaaa"))
    [copy (zero_array 20) (list_byte_of_string "aaaaaaaaaaaaaaaaaaaa");
     copy (zero_array 20) (list_byte_of_string "bbbbbbbbbbbbbbbbbbbb")]
    4 8 "file".

(** * Properties *)

(** ** Arrays and the hash splitting loop *)

Lemma vec_to_list_copy {n : nat} (dst : vec byte n) (src : list byte) :
  vec_to_list (copy dst src)
  = take n src ++ drop (length src) (vec_to_list dst).
Proof.
  revert src. induction dst as [|d m dst IH]; intros src.
  - by destruct src.
  - destruct src as [|b src]; simpl; [done|]. by rewrite IH.
Qed.

Lemma vec_to_list_copy_full {n : nat} (dst : vec byte n) (src : list byte) :
  length src = n -> vec_to_list (copy dst src) = src.
Proof.
  intros Hlen. rewrite vec_to_list_copy.
  rewrite take_ge by lia.
  rewrite drop_ge by (rewrite length_vec_to_list; lia).
  apply app_nil_r.
Qed.

Lemma length_slice (buf : list byte) (lo hi : nat) :
  hi <= length buf -> length (slice buf lo hi) = hi - lo.
Proof. intros Hhi. unfold slice. rewrite length_take, length_drop. lia. Qed.

Lemma slice_lookup (buf : list byte) (lo hi j : nat) :
  j < hi - lo -> slice buf lo hi !! j = buf !! (lo + j).
Proof.
  intros Hj. unfold slice. rewrite lookup_take_lt by done. apply lookup_drop.
Qed.

Lemma splitLoop_length (buf : list byte) (n i : nat) (hashes : list Array20) :
  length (splitLoop buf n i hashes) = length hashes.
Proof.
  revert i hashes. induction n as [|n IH]; intros i hashes; simpl; [done|].
  by rewrite IH, length_alter.
Qed.

(** Iterations [i], ..., [i + n - 1] fill exactly the entries of those
    indices, each from its own twenty bytes, and leave the others alone. *)
Lemma splitLoop_lookup (buf : list byte) (n i k : nat) (hashes : list Array20) :
  splitLoop buf n i hashes !! k
  = if decide (i <= k < i + n)
    then (fun h => copy h (slice buf (k * hashLen) ((k + 1) * hashLen)))
           <$> hashes !! k
    else hashes !! k.
Proof.
  revert i hashes. induction n as [|n IH]; intros i hashes; simpl.
  - case_decide; [lia|done].
  - rewrite IH. destruct (decide (k = i)) as [->|Hne].
    + rewrite list_lookup_alter_eq.
      repeat case_decide; try lia; done.
    + rewrite list_lookup_alter_ne by done.
      repeat case_decide; try lia; done.
Qed.

(** Every slice expression and every index of the loop is in range, so the
    loop cannot panic. *)
Lemma splitLoop_in_range (buf : list byte) (i : nat) :
  length buf mod hashLen = 0 -> i < length buf / hashLen ->
  i * hashLen <= (i + 1) * hashLen <= length buf
  /\ i < length (replicate (length buf / hashLen) (zero_array 20)).
Proof.
  intros Hmod Hi. rewrite length_replicate. unfold hashLen in *.
  pose proof (Nat.div_mod_eq (length buf) 20). lia.
Qed.

(** C5. [splitPieceHashes] fails, with the malformed-pieces error, exactly
    when the byte length of the pieces string is not a multiple of 20;
    otherwise it returns [len / 20] hashes, and byte [j] of hash [k] is byte
    [20 * k + j] of the pieces string. *)
Theorem splitPieceHashes_spec (i : bencodeInfo) :
  let buf := list_byte_of_string (Pieces i) in
  (is_Some (splitPieceHashes i).2 <-> length buf mod 20 <> 0)
  /\ (length buf mod 20 <> 0 ->
      splitPieceHashes i = ([], Some (malformed_pieces (length buf))))
  /\ (length buf mod 20 = 0 ->
      (splitPieceHashes i).2 = None
      /\ length (splitPieceHashes i).1 = length buf / 20
      /\ forall k h, (splitPieceHashes i).1 !! k = Some h ->
           forall j, j < 20 -> vec_to_list h !! j = buf !! (20 * k + j)).
Proof.
  intros buf. unfold splitPieceHashes. fold buf. unfold hashLen.
  destruct (decide (length buf mod 20 <> 0)) as [Hbad|Hok]; cbn [fst snd].
  - split; [|split]; [|done|done]. split; [done|eauto].
  - assert (Hmod : length buf mod 20 = 0) by lia.
    split; [|split]; [|done|].
    { split; [intros [? ?]; done|done]. }
    intros _. split; [done|]. split.
    { by rewrite splitLoop_length, length_replicate. }
    intros k h Hk j Hj.
    assert (Hlt : k < length buf / 20).
    { apply lookup_lt_Some in Hk.
      by rewrite splitLoop_length, length_replicate in Hk. }
    rewrite splitLoop_lookup, decide_True in Hk by lia.
    rewrite lookup_replicate_2 in Hk by done.
    apply (inj Some) in Hk. subst h.
    destruct (splitLoop_in_range buf k Hmod Hlt) as [[_ Hhi] _].
    unfold hashLen in *.
    rewrite vec_to_list_copy_full by (rewrite length_slice by done; lia).
    rewrite slice_lookup by lia. f_equal. lia.
Qed.

Example splitPieceHashes_two :
  splitPieceHashes test_info
  = ([copy (zero_array 20) (list_byte_of_string "aaaaaaaaaaaaaaaaaaaa");
      copy (zero_array 20) (list_byte_of_string "bbbbbbbbbbbbbbbbbbbb")], None).
Proof. vm_compute. reflexivity. Qed.

Example splitPieceHashes_malformed :
  splitPieceHashes (mkBencodeInfo "aaaaaaaaaaaaaaaaaaaab" 4 8 "file")
  = ([], Some "Received malformed pieces of length 21").
Proof. vm_compute. reflexivity. Qed.

Section Properties.

Context `{Externals}.

Implicit Types (t : TorrentFile) (w : World) (e : error).

(** ** Conversion of the decoded metadata *)

Lemma toTorrentFile_error (bto : bencodeTorrent) :
  is_Some (toTorrentFile bto).2 -> (toTorrentFile bto).1 = TorrentFile_zero.
Proof.
  unfold toTorrentFile, hash.
  destruct (bencode_Marshal (Info bto)); [|done].
  destruct (splitPieceHashes (Info bto)) as [hs [e|]]; [done|].
  by intros [? ?].
Qed.

(** With a serializable info dictionary the conversion fails exactly on a
    malformed pieces string. *)
Lemma toTorrentFile_succeeds (bto : bencodeTorrent) (buf : list byte) :
  bencode_Marshal (Info bto) = inl buf ->
  (toTorrentFile bto).2 = None
  <-> length (list_byte_of_string (Pieces (Info bto))) mod 20 = 0.
Proof.
  intros Hbuf. unfold toTorrentFile, hash, splitPieceHashes, hashLen.
  rewrite Hbuf.
  destruct (decide (length (list_byte_of_string (Pieces (Info bto))) mod 20 <> 0));
    cbn [fst snd]; split; (done || lia).
Qed.

(** C9. When the info dictionary serializes, the [InfoHash] of the
    [TorrentFile] that [toTorrentFile] produces is the SHA-1 digest of that
    serialization. *)
Theorem toTorrentFile_InfoHash (bto : bencodeTorrent) (buf : list byte) t :
  bencode_Marshal (Info bto) = inl buf ->
  toTorrentFile bto = (t, None) ->
  InfoHash t = sha1_Sum buf.
Proof.
  intros Hbuf. unfold toTorrentFile, hash. rewrite Hbuf.
  destruct (splitPieceHashes (Info bto)) as [hs [e|]]; [done|].
  by intros [= <-].
Qed.

(** ** Open *)

Lemma Open_world (path : string) w : (Open path w).2 = w.
Proof.
  unfold Open, os_Open, get_fs, mbind, M_bind, mret, M_ret.
  destruct (open_err path); [done|].
  destruct (fs w !! path); [|done].
  by destruct (bencode_Unmarshal_torrent _).
Qed.

Lemma Open_error (path : string) w :
  is_Some (Open path w).1.2 -> (Open path w).1.1 = TorrentFile_zero.
Proof.
  unfold Open, os_Open, get_fs, mbind, M_bind, mret, M_ret.
  destruct (open_err path); [done|].
  destruct (fs w !! path); [|done].
  destruct (bencode_Unmarshal_torrent _) as [bto|]; [|done].
  cbn [fst snd]. apply toTorrentFile_error.
Qed.

(** The three ways in which [Open] fails, each handing on its own error. *)
Lemma Open_failures (path : string) w :
  (forall e, open_err path = Some e ->
     Open path w = ((TorrentFile_zero, Some e), w))
  /\ (open_err path = None -> fs w !! path = None ->
     Open path w = ((TorrentFile_zero, Some (no_such_file path)), w))
  /\ (forall data e, open_err path = None -> fs w !! path = Some data ->
     bencode_Unmarshal_torrent data = inr e ->
     Open path w = ((TorrentFile_zero, Some e), w))
  /\ (forall data bto e, open_err path = None -> fs w !! path = Some data ->
     bencode_Unmarshal_torrent data = inl bto ->
     (toTorrentFile bto).2 = Some e ->
     Open path w = ((TorrentFile_zero, Some e), w)).
Proof.
  unfold Open, os_Open, get_fs, mbind, M_bind, mret, M_ret.
  repeat split.
  - by intros e ->.
  - by intros -> ->.
  - by intros data e -> -> ->.
  - intros data bto e -> -> -> He.
    pose proof (toTorrentFile_error bto) as Hz. rewrite He in Hz.
    destruct (toTorrentFile bto) as [tf err]; cbn [fst snd] in *.
    by rewrite Hz, He by eauto.
Qed.

(** ** The tracker query *)

Lemma append_assoc (a b c : string) : (a +:+ b) +:+ c = a +:+ b +:+ c.
Proof.
  induction a as [|x a IH]; [done|].
  change (String x ((a +:+ b) +:+ c) = String x (a +:+ b +:+ c)).
  by rewrite IH.
Qed.

Lemma length_append (a b : string) :
  String.length (a +:+ b) = String.length a + String.length b.
Proof.
  induction a as [|x a IH]; [done|].
  change (S (String.length (a +:+ b)) = S (String.length a + String.length b)).
  by rewrite IH.
Qed.

Lemma write_pair_first (k v : string) :
  url.write_pair k "" v = k +:+ "=" +:+ url.QueryEscape v.
Proof. done. Qed.

Lemma write_pair_nonempty (k buf v : string) :
  0 < String.length (url.write_pair k buf v).
Proof.
  unfold url.write_pair. rewrite !length_append. simpl. lia.
Qed.

Lemma write_pair_next (k1 k2 buf v1 v2 : string) :
  url.write_pair k2 (url.write_pair k1 buf v1) v2
  = url.write_pair k1 buf v1 +:+ "&" +:+ k2 +:+ "=" +:+ url.QueryEscape v2.
Proof.
  unfold url.write_pair at 1.
  rewrite bool_decide_true by apply write_pair_nonempty.
  by rewrite !append_assoc.
Qed.

Lemma Encode_tracker_params (ih pid p : string) :
  url.Encode {[ "info_hash" := [ih]; "peer_id" := [pid]; "port" := [p];
                "uploaded" := ["0"]; "downloaded" := ["0"];
                "compact" := ["1"]; "left" := ["0"] ]}
  = "compact=1&downloaded=0&info_hash=" +:+ url.QueryEscape ih
    +:+ "&left=0&peer_id=" +:+ url.QueryEscape pid
    +:+ "&port=" +:+ url.QueryEscape p +:+ "&uploaded=0".
Proof.
  unfold url.Encode.
  assert (Hkeys : url.sorted_keys
            {[ "info_hash" := [ih]; "peer_id" := [pid]; "port" := [p];
               "uploaded" := ["0"]; "downloaded" := ["0"];
               "compact" := ["1"]; "left" := ["0"] ]}
          = ["compact"; "downloaded"; "info_hash"; "left"; "peer_id"; "port";
             "uploaded"]).
  { unfold url.sorted_keys. rewrite !dom_insert_L, dom_singleton_L.
    vm_compute. reflexivity. }
  rewrite Hkeys. cbn [foldl].
  repeat (rewrite lookup_insert_eq || (rewrite lookup_insert_ne by done)
          || rewrite lookup_singleton_eq).
  cbn [default from_option id foldl].
  rewrite !write_pair_next, write_pair_first, !append_assoc.
  reflexivity.
Qed.

Lemma QueryEscape_digit (x : N) (s : string) :
  url.QueryEscape (String (pretty_N_char x) s)
  = String (pretty_N_char x) (url.QueryEscape s).
Proof. unfold pretty_N_char. by repeat case_match. Qed.

Lemma QueryEscape_pretty_N_go (x : N) (s : string) :
  url.QueryEscape (pretty_N_go x s) = pretty_N_go x (url.QueryEscape s).
Proof.
  revert s. induction (N.lt_wf_0 x) as [x _ IH]; intros s.
  destruct (decide (x = 0)%N) as [->|Hpos]; [done|].
  rewrite (pretty_N_go_step x s), (pretty_N_go_step x (url.QueryEscape s)) by lia.
  rewrite IH by (apply N.div_lt; lia).
  by rewrite QueryEscape_digit.
Qed.

(** A decimal numeral needs no escaping. *)
Lemma QueryEscape_Itoa (port : N) :
  url.QueryEscape (strconv_Itoa (Z.of_N port)) = pretty port.
Proof.
  unfold strconv_Itoa. destruct port as [|p]; [done|].
  change (pretty (Z.of_N (N.pos p))) with (pretty (N.pos p)).
  unfold pretty at 1 2, pretty_N. case_decide; [done|].
  apply QueryEscape_pretty_N_go.
Qed.

Lemma length_string_of_list_byte (l : list byte) :
  String.length (string_of_list_byte l) = length l.
Proof.
  induction l as [|b l IH]; [done|].
  change (S (String.length (string_of_list_byte l)) = S (length l)).
  by rewrite IH.
Qed.

Lemma length_array_string {n : nat} (a : vec byte n) :
  String.length (array_string a) = n.
Proof.
  unfold array_string.
  by rewrite length_string_of_list_byte, length_vec_to_list.
Qed.

(** ** buildTrackerURL and requestPeers *)

Ltac run_M :=
  unfold mbind, M_bind, mret, M_ret, emit, modify_fs, get_fs in *;
  cbn [fst snd fs trace] in *.

Lemma buildTrackerURL_parsed t (peerID : Array20) (port : N) (base : url.URL) :
  url_Parse (Announce t) = inl base ->
  buildTrackerURL t peerID port
  = ((URL_String
        (url.set_RawQuery (url.Encode (tracker_params t peerID port)) base),
      None), t).
Proof. intros Hbase. unfold buildTrackerURL. by rewrite Hbase. Qed.

Lemma requestPeers_receiver t (peerID : Array20) (port : N) w :
  (requestPeers t peerID port w).1.2 = t.
Proof.
  unfold requestPeers, buildTrackerURL, Client_Get. run_M.
  repeat case_match; by simplify_eq/=.
Qed.

Lemma requestPeers_trace t (peerID : Array20) (port : N) w (u : string) :
  buildTrackerURL t peerID port = ((u, None), t) ->
  trace (requestPeers t peerID port w).2 = trace w ++ [EvHttpGet u].
Proof.
  intros Hu. unfold requestPeers. rewrite Hu. unfold Client_Get. run_M.
  destruct (http_Get u) as [body|]; [|done].
  by destruct (bencode_Unmarshal_tracker body).
Qed.

(** [requestPeers] touches no file, and all it sends is at most one GET. *)
Lemma requestPeers_world t (peerID : Array20) (port : N) w :
  fs (requestPeers t peerID port w).2 = fs w
  /\ (trace (requestPeers t peerID port w).2 = trace w
      \/ exists u, trace (requestPeers t peerID port w).2
                   = trace w ++ [EvHttpGet u]).
Proof.
  unfold requestPeers, buildTrackerURL, Client_Get. run_M.
  repeat case_match; simplify_eq/=; eauto.
Qed.

(** C2. When [Announce] parses, [requestPeers] sends exactly one GET, to the
    announce URL with its query replaced by the seven parameters
    [info_hash] (the twenty bytes of [InfoHash]), [peer_id] (the twenty bytes
    of the peer id), [port] (in decimal), [uploaded=0], [downloaded=0],
    [compact=1] and [left=0], and no other parameter. *)
Theorem requestPeers_single_GET t (peerID : Array20) (port : N) w
    (base : url.URL) :
  url_Parse (Announce t) = inl base ->
  let params : url.Values :=
    {[ "info_hash" := [array_string (InfoHash t)];
       "peer_id" := [array_string peerID];
       "port" := [pretty port];
       "uploaded" := ["0"]; "downloaded" := ["0"];
       "compact" := ["1"]; "left" := ["0"] ]} in
  let query :=
    "compact=1&downloaded=0&info_hash="
      +:+ url.QueryEscape (array_string (InfoHash t))
      +:+ "&left=0&peer_id=" +:+ url.QueryEscape (array_string peerID)
      +:+ "&port=" +:+ pretty port +:+ "&uploaded=0" in
  trace (requestPeers t peerID port w).2
    = trace w ++ [EvHttpGet (URL_String (url.set_RawQuery query base))]
  /\ query = url.Encode params
  /\ dom params = {[ "info_hash"; "peer_id"; "port"; "uploaded"; "downloaded";
                     "compact"; "left" ]}
  /\ String.length (array_string (InfoHash t)) = 20
  /\ String.length (array_string peerID) = 20.
Proof.
  intros Hbase params query.
  assert (Hitoa : strconv_Itoa (Z.of_N port) = pretty port).
  { unfold strconv_Itoa. by destruct port. }
  assert (Hquery : url.Encode (tracker_params t peerID port) = query).
  { unfold tracker_params. rewrite Encode_tracker_params, QueryEscape_Itoa.
    done. }
  split; [|split; [|split; [|split]]].
  - apply requestPeers_trace.
    by rewrite (buildTrackerURL_parsed _ _ _ _ Hbase), Hquery.
  - rewrite <- Hquery. unfold tracker_params. by rewrite Hitoa.
  - unfold params. rewrite !dom_insert_L, dom_singleton_L. set_solver.
  - apply length_array_string.
  - apply length_array_string.
Qed.

(** ** GetTorrent *)

(** C7. [GetTorrent] leaves its receiver as it found it, and the [Torrent]
    it returns on success carries the receiver's [InfoHash], [PieceHashes],
    [PieceLength], [Length] and [Name]. *)
Theorem GetTorrent_frame t w :
  (GetTorrent t w).1.2 = t
  /\ ((GetTorrent t w).1.1.2 = None ->
      let tor := (GetTorrent t w).1.1.1 in
      peer2peer.InfoHash tor = InfoHash t
      /\ peer2peer.PieceHashes tor = PieceHashes t
      /\ peer2peer.PieceLength tor = PieceLength t
      /\ peer2peer.Length tor = Length t
      /\ peer2peer.Name tor = Name t).
Proof.
  unfold GetTorrent.
  destruct (rand_Read 20) as [random [e|]]; [done|].
  run_M. pose proof (requestPeers_receiver t (copy (zero_array 20) random) Port w) as Hrecv.
  destruct (requestPeers t (copy (zero_array 20) random) Port w)
    as [[[ps [e|]] t'] w']; cbn [fst snd] in *; by subst.
Qed.

Lemma GetTorrent_world t w :
  fs (GetTorrent t w).2 = fs w
  /\ (trace (GetTorrent t w).2 = trace w
      \/ exists u, trace (GetTorrent t w).2 = trace w ++ [EvHttpGet u]).
Proof.
  unfold GetTorrent.
  destruct (rand_Read 20) as [random [e|]]; [by eauto|].
  run_M.
  pose proof (requestPeers_world t (copy (zero_array 20) random) Port w) as Hw.
  destruct (requestPeers t (copy (zero_array 20) random) Port w)
    as [[[ps [e|]] t'] w']; cbn [fst snd] in *; done.
Qed.

(** An error of [GetTorrent] is the error of the peer-id generation or of
    the tracker request, and comes with the zero [Torrent]. *)
Lemma GetTorrent_error t w e :
  (GetTorrent t w).1.1.2 = Some e ->
  (GetTorrent t w).1.1.1 = peer2peer.Torrent_zero
  /\ ((rand_Read 20).2 = Some e
      \/ (rand_Read 20).2 = None
         /\ (requestPeers t (copy (zero_array 20) (rand_Read 20).1) Port w).1.1.2
            = Some e).
Proof.
  unfold GetTorrent.
  destruct (rand_Read 20) as [random [e'|]]; cbn [fst snd].
  { intros [= ->]. eauto. }
  run_M.
  destruct (requestPeers t (copy (zero_array 20) random) Port w)
    as [[[ps [e'|]] t'] w']; cbn [fst snd]; [|done].
  intros [= ->]. eauto.
Qed.

Lemma GetTorrent_failures t w e :
  ((rand_Read 20).2 = Some e ->
   GetTorrent t w = ((peer2peer.Torrent_zero, Some e), t, w))
  /\ ((rand_Read 20).2 = None ->
      (requestPeers t (copy (zero_array 20) (rand_Read 20).1) Port w).1.1.2
        = Some e ->
      (GetTorrent t w).1.1 = (peer2peer.Torrent_zero, Some e)).
Proof.
  unfold GetTorrent.
  destruct (rand_Read 20) as [random [e'|]]; cbn [fst snd].
  { split; [by intros [= ->]|done]. }
  split; [done|]. intros _. run_M.
  destruct (requestPeers t (copy (zero_array 20) random) Port w)
    as [[[ps [e'|]] t'] w']; cbn [fst snd]; [|done].
  by intros [= ->].
Qed.

(** ** main *)

Lemma main_Open_fails (inPath outPath : string) (sched : list nat) w e :
  (Open inPath w).1.2 = Some e ->
  main inPath outPath sched w = (Fatal e, w).
Proof.
  intros He. unfold main. run_M.
  pose proof (Open_world inPath w) as Hw.
  destruct (Open inPath w) as [[tf err] w']; cbn [fst snd] in *.
  by subst.
Qed.

Lemma main_GetTorrent_fails (inPath outPath : string) (sched : list nat) w
    (tf : TorrentFile) e :
  (Open inPath w).1 = (tf, None) ->
  (GetTorrent tf w).1.1.2 = Some e ->
  main inPath outPath sched w = (Fatal e, (GetTorrent tf w).2).
Proof.
  intros Hopen He. unfold main. run_M.
  pose proof (Open_world inPath w) as Hw.
  destruct (Open inPath w) as [[tf' err] w']; cbn [fst snd] in *.
  simplify_eq.
  destruct (GetTorrent tf w) as [[[tor err] tf'] w']; cbn [fst snd] in *.
  by subst.
Qed.

(** C8. Start-up errors are fatal.  When the peer-id generation or the
    tracker request fails, [GetTorrent] returns that error with the zero
    [Torrent], and neither it nor [main], which stops there, dials a peer;
    when opening the file, decoding it or converting it fails, [Open]
    returns that error with the zero [TorrentFile], and [main] stops. *)
Theorem startup_errors_fatal (inPath outPath : string) (sched : list nat) w :
  (forall t e,
     (rand_Read 20).2 = Some e
     \/ (rand_Read 20).2 = None
        /\ (requestPeers t (copy (zero_array 20) (rand_Read 20).1) Port w).1.1.2
           = Some e ->
     (GetTorrent t w).1.1 = (peer2peer.Torrent_zero, Some e)
     /\ (exists evs, trace (GetTorrent t w).2 = trace w ++ evs
                     /\ Forall (fun ev => is_dial ev = false) evs)
     /\ ((Open inPath w).1 = (t, None) ->
         main inPath outPath sched w = (Fatal e, (GetTorrent t w).2)))
  /\ (forall t e, (GetTorrent t w).1.1.2 = Some e ->
        (GetTorrent t w).1.1.1 = peer2peer.Torrent_zero)
  /\ (forall e,
        open_err inPath = Some e
        \/ open_err inPath = None /\ fs w !! inPath = None
           /\ e = no_such_file inPath
        \/ (exists data, open_err inPath = None /\ fs w !! inPath = Some data
              /\ (bencode_Unmarshal_torrent data = inr e
                  \/ exists bto, bencode_Unmarshal_torrent data = inl bto
                                 /\ (toTorrentFile bto).2 = Some e)) ->
        Open inPath w = ((TorrentFile_zero, Some e), w)
        /\ main inPath outPath sched w = (Fatal e, w))
  /\ (forall e, (Open inPath w).1.2 = Some e ->
        (Open inPath w).1.1 = TorrentFile_zero).
Proof.
  split; [|split; [|split]].
  - intros t e Hfail.
    assert (Herr : (GetTorrent t w).1.1 = (peer2peer.Torrent_zero, Some e)).
    { destruct (GetTorrent_failures t w e) as [Hrand Hreq].
      destruct Hfail as [Hr|[Hr Hq]]; [by rewrite Hrand|by apply Hreq]. }
    split; [done|]. split.
    + destruct (GetTorrent_world t w) as [_ [Htr|[u Htr]]]; rewrite Htr.
      * exists []. by rewrite app_nil_r.
      * exists [EvHttpGet u]. split; [done|]. by repeat constructor.
    + intros Hopen. apply main_GetTorrent_fails; [done|]. by rewrite Herr.
  - intros t e He. by apply GetTorrent_error in He as [? _].
  - intros e Hfail.
    destruct (Open_failures inPath w) as (Ho & Hmissing & Hdecode & Hconv).
    assert (Hopen : Open inPath w = ((TorrentFile_zero, Some e), w)).
    { destruct Hfail as [He|[(Hn & Hfs & ->)|(data & Hn & Hfs & [Hd|(bto & Hd & Hc)])]];
        eauto. }
    split; [done|]. apply main_Open_fails. by rewrite Hopen.
  - intros e He. apply Open_error. by rewrite He.
Qed.

(** ** DownloadToFile *)

(** What [DownloadToFile] does once the download has produced [buf]. *)
Lemma DownloadToFile_downloaded t (path : string) (tor : peer2peer.Torrent Peer)
    (cs : list Client) w (buf : list byte) :
  Download tor cs = inl buf ->
  DownloadToFile t path tor cs w
  = match create_err path with
    | Some e => ((Some e, t), mkWorld (fs w) (trace w ++ [EvCreate path]))
    | None =>
        let events := [EvCreate path; EvWrite path buf; EvClose path] in
        match write_err path buf with
        | Some (n, e) =>
            ((Some e, t),
             mkWorld (<[path := take n buf]> (fs w)) (trace w ++ events))
        | None =>
            ((None, t), mkWorld (<[path := buf]> (fs w)) (trace w ++ events))
        end
    end.
Proof.
  intros Hbuf. unfold DownloadToFile, os_Create, File_Write, File_Close.
  rewrite Hbuf. run_M.
  destruct (create_err path) as [e|]; [done|].
  destruct (write_err path buf) as [[n e]|]; run_M;
    by rewrite alter_insert_eq, <- !app_assoc.
Qed.

(** C3. When [Download] fails, [DownloadToFile] returns its error and does
    nothing else: no file is created or written, at [path] or anywhere, and
    no call leaves the process. *)
Theorem DownloadToFile_download_error t (path : string)
    (tor : peer2peer.Torrent Peer) (cs : list Client) w e :
  Download tor cs = inr e ->
  DownloadToFile t path tor cs w = ((Some e, t), w)
  /\ fs (DownloadToFile t path tor cs w).2 !! path = fs w !! path.
Proof.
  intros He. unfold DownloadToFile. rewrite He. by run_M.
Qed.

(** C4. When [Download] succeeds with [buf], [DownloadToFile] returns [nil]
    exactly when neither the creation of the file nor the write fails; the
    file at [path] then holds [buf], so its size is [Length] whenever [buf]
    has that length. *)
Theorem DownloadToFile_writes_buffer t (path : string)
    (tor : peer2peer.Torrent Peer) (cs : list Client) w (buf : list byte) :
  Download tor cs = inl buf ->
  let r := DownloadToFile t path tor cs w in
  (r.1.1 = None <-> create_err path = None /\ write_err path buf = None)
  /\ (r.1.1 = None ->
      fs r.2 !! path = Some buf
      /\ (Z.of_nat (length buf) = peer2peer.Length tor ->
          (fun data => Z.of_nat (length data)) <$> fs r.2 !! path
          = Some (peer2peer.Length tor))).
Proof.
  intros Hbuf r. unfold r. rewrite (DownloadToFile_downloaded _ _ _ _ _ _ Hbuf).
  destruct (create_err path) as [e|]; cbn [fst snd].
  { split; [|done]. split; [done|]. by intros [? _]. }
  destruct (write_err path buf) as [[n e]|]; cbn [fst snd fs].
  { split; [|done]. split; [done|]. by intros [_ ?]. }
  split; [done|]. intros _. rewrite lookup_insert_eq.
  split; [done|]. by intros <-.
Qed.

(** C10. A file that is already at [path] does not make [DownloadToFile]
    fail: the result is the one obtained when no file is there, and after a
    successful run the file holds the downloaded buffer, whatever it held
    before. *)
Theorem DownloadToFile_overwrites t (path : string)
    (tor : peer2peer.Torrent Peer) (cs : list Client) w (old : list byte) :
  fs w !! path = Some old ->
  let absent := mkWorld (delete path (fs w)) (trace w) in
  (DownloadToFile t path tor cs w).1 = (DownloadToFile t path tor cs absent).1
  /\ forall buf, Download tor cs = inl buf ->
       (DownloadToFile t path tor cs w).1.1 = None ->
       fs (DownloadToFile t path tor cs w).2 !! path = Some buf
       /\ fs (DownloadToFile t path tor cs w).2
          = fs (DownloadToFile t path tor cs absent).2.
Proof.
  intros Hold absent. split.
  - destruct (Download tor cs) as [buf|e] eqn:Hd.
    + rewrite !(DownloadToFile_downloaded _ _ _ _ _ _ Hd).
      destruct (create_err path); [done|].
      by destruct (write_err path buf) as [[n e]|].
    + unfold DownloadToFile. rewrite Hd. by run_M.
  - intros buf Hd. rewrite !(DownloadToFile_downloaded _ _ _ _ _ _ Hd).
    destruct (create_err path); [done|].
    destruct (write_err path buf) as [[n e]|]; [done|].
    cbn [fst snd fs absent]. intros _. rewrite lookup_insert_eq.
    split; [done|]. unfold absent. cbn [fs]. by rewrite insert_delete_eq.
Qed.

(** ** ConnectToPeers *)

Implicit Types (tor : peer2peer.Torrent Peer) (st : ConnState).

Lemma step_goroutines tor st (k : nat) w :
  goroutines (step tor st k w).1 = alter (advance tor) k (goroutines st).
Proof.
  unfold step. destruct (goroutines st !! k) as [g|] eqn:Hk.
  - assert (Halter : forall g', advance tor g = g' ->
              alter (advance tor) k (goroutines st) = <[k := g']> (goroutines st)).
    { intros g' <-. apply list_eq. intros j.
      rewrite list_lookup_alter, list_lookup_insert.
      pose proof (lookup_lt_Some _ _ _ Hk).
      repeat case_decide; simplify_eq; try lia; by rewrite ?Hk. }
    destruct g as [p|c|]; run_M.
    + destruct (client_New p (peer2peer.PeerID tor) (peer2peer.InfoHash tor))
        as [c|e] eqn:Hc; cbn [goroutines]; symmetry; apply Halter;
        unfold advance, handshake; by rewrite Hc.
    + cbn [goroutines]. by rewrite (Halter _ eq_refl).
    + rewrite (Halter _ eq_refl). symmetry. by apply list_insert_id.
  - run_M. symmetry. apply list_eq. intros j.
    rewrite list_lookup_alter. case_decide; [|done]. subst. by rewrite Hk.
Qed.

Lemma omap_insert {A B : Type} (f : A -> option B) (l : list A) (k : nat)
    (x y : A) :
  l !! k = Some x ->
  omap f l = omap f (take k l) ++ omap f [x] ++ omap f (drop (S k) l)
  /\ omap f (<[k := y]> l)
     = omap f (take k l) ++ omap f [y] ++ omap f (drop (S k) l).
Proof.
  intros Hk. split.
  - rewrite <- (take_drop_middle l k x Hk) at 1.
    rewrite omap_app. f_equal. exact (omap_app f [x] _).
  - rewrite insert_take_drop by (by eapply lookup_lt_Some).
    rewrite omap_app. f_equal. exact (omap_app f [y] _).
Qed.

(** A step moves a client from the goroutines to [clients], or moves none. *)
Lemma step_pending tor st (k : nat) w :
  clients (step tor st k w).1 ++ omap (pending tor) (goroutines (step tor st k w).1)
  ≡ₚ clients st ++ omap (pending tor) (goroutines st).
Proof.
  unfold step. destruct (goroutines st !! k) as [g|] eqn:Hk; [|done].
  destruct g as [p|c|]; run_M; [| |done].
  - assert (Hsame : forall g', pending tor g' = handshake tor p ->
              omap (pending tor) (<[k := g']> (goroutines st))
              = omap (pending tor) (goroutines st)).
    { intros g' Hg'.
      destruct (omap_insert (pending tor) _ k _ g' Hk) as [-> ->].
      cbn [omap list_omap pending]. by rewrite Hg'. }
    unfold handshake in Hsame.
    destruct (client_New p _ _); cbn [fst clients goroutines];
      by rewrite Hsame.
  - cbn [fst clients goroutines].
    destruct (omap_insert (pending tor) _ k _ Finished Hk) as [-> ->].
    cbn [omap list_omap pending]. simpl.
    rewrite <- app_assoc. f_equiv. simpl.
    by rewrite Permutation_middle.
Qed.

Lemma run_pending tor (sched : list nat) st w :
  clients (run tor sched st w).1 ++ omap (pending tor) (goroutines (run tor sched st w).1)
  ≡ₚ clients st ++ omap (pending tor) (goroutines st).
Proof.
  revert st w. induction sched as [|k sched IH]; intros st w; [done|].
  cbn [run]. run_M.
  pose proof (step_pending tor st k w) as Hstep.
  destruct (step tor st k w) as [st' w']. cbn [fst] in Hstep.
  by rewrite IH.
Qed.

Lemma run_goroutines tor (sched : list nat) st w :
  goroutines (run tor sched st w).1
  = foldl (fun gs k => alter (advance tor) k gs) (goroutines st) sched.
Proof.
  revert st w. induction sched as [|k sched IH]; intros st w; [done|].
  cbn [run foldl]. run_M.
  pose proof (step_goroutines tor st k w) as Hstep.
  destruct (step tor st k w) as [st' w']. cbn [fst] in Hstep.
  by rewrite IH, Hstep.
Qed.

(** After a schedule, a goroutine has taken as many steps as the schedule
    names it. *)
Lemma foldl_alter_lookup {A : Type} (f : A -> A) (sched : list nat)
    (l : list A) (j : nat) :
  foldl (fun l k => alter f k l) l sched !! j
  = Nat.iter (count_occ Nat.eq_dec sched j) f <$> l !! j.
Proof.
  revert l. induction sched as [|k sched IH]; intros l; cbn [foldl count_occ].
  - by destruct (l !! j).
  - rewrite IH, list_lookup_alter.
    destruct (Nat.eq_dec k j) as [->|Hne].
    + rewrite decide_True by done. destruct (l !! j) as [x|]; [|done].
      cbn [fmap option_fmap option_map]. by rewrite Nat.iter_succ_r.
    + by rewrite decide_False by done.
Qed.

Lemma advance_twice tor (g : Goroutine) (n : nat) :
  2 <= n -> Nat.iter n (advance tor) g = Finished.
Proof.
  intros Hn. destruct n as [|[|n]]; [lia|lia|].
  rewrite !Nat.iter_succ_r.
  assert (Hg : advance tor (advance tor g) = Finished).
  { destruct g as [p| |]; [|done|done].
    unfold advance. by destruct (handshake tor p). }
  rewrite Hg. clear Hn Hg. induction n as [|n IH]; [done|].
  rewrite Nat.iter_succ, IH. reflexivity.
Qed.

Lemma count_occ_sequential_from (lo n j : nat) :
  count_occ Nat.eq_dec (flat_map (fun k => [k; k]) (seq lo n)) j
  = if decide (lo <= j < lo + n) then 2 else 0.
Proof.
  revert lo. induction n as [|n IH]; intros lo; cbn [seq flat_map app].
  - case_decide; [lia|done].
  - cbn [count_occ]. rewrite IH.
    destruct (Nat.eq_dec lo j); repeat case_decide; lia.
Qed.

(** The sequential schedule names every goroutine twice. *)
Lemma count_occ_sequential (n j : nat) :
  j < n -> count_occ Nat.eq_dec (sequential n) j = 2.
Proof.
  intros Hj. unfold sequential. rewrite count_occ_sequential_from.
  case_decide; [done|lia].
Qed.

(** A schedule that names every goroutine at least twice lets all of them
    finish. *)
Lemma run_finishes tor (sched : list nat) st w :
  (forall j, j < length (goroutines st) ->
             2 <= count_occ Nat.eq_dec sched j) ->
  forallb is_finished (goroutines (run tor sched st w).1) = true.
Proof.
  intros Hfair. apply Is_true_eq_true, forallb_True, Forall_lookup.
  intros j g Hg. rewrite run_goroutines, foldl_alter_lookup in Hg.
  destruct (goroutines st !! j) as [g0|] eqn:Hj; [|done].
  apply (inj Some) in Hg. subst g.
  rewrite advance_twice; [done|]. apply Hfair. by eapply lookup_lt_Some.
Qed.

Lemma finished_pending tor (gs : list Goroutine) :
  forallb is_finished gs = true -> omap (pending tor) gs = [].
Proof.
  induction gs as [|g gs IH]; [done|]. cbn [forallb].
  intros [Hg Hgs]%andb_true_iff. destruct g; try done.
  cbn [omap list_omap pending]. by apply IH.
Qed.

Lemma pending_initial tor :
  omap (pending tor) (Dialing <$> peer2peer.Peers tor) = connected tor.
Proof.
  unfold connected. induction (peer2peer.Peers tor) as [|p ps IH]; [done|].
  cbn [fmap list_fmap omap list_omap pending]. by rewrite <- IH.
Qed.

Lemma connected_nil tor :
  connected tor = []
  <-> Forall (fun p => handshake tor p = None) (peer2peer.Peers tor).
Proof.
  unfold connected. induction (peer2peer.Peers tor) as [|p ps IH].
  - split; [constructor|done].
  - cbn [omap list_omap]. destruct (handshake tor p) as [c|] eqn:Hp.
    + split; [done|]. intros Hall. apply Forall_cons in Hall as [Hc _].
      congruence.
    + rewrite Forall_cons. tauto.
Qed.

(** C1. [ConnectToPeers] returns, under every schedule that lets each
    goroutine take its two steps.  It returns an error exactly when no peer
    completes the handshake; otherwise it returns, in the order in which
    the goroutines append, one client for each peer whose handshake
    succeeds and nothing for the others. *)
Theorem ConnectToPeers_spec tor (sched : list nat) w :
  is_Some (ConnectToPeers (sched ++ sequential (length (peer2peer.Peers tor)))
             tor w).1
  /\ forall cs err,
       (ConnectToPeers sched tor w).1 = Some (cs, err) ->
       (is_Some err
        <-> Forall (fun p => handshake tor p = None) (peer2peer.Peers tor))
       /\ (is_Some err -> err = Some no_peers /\ cs = [])
       /\ (err = None -> cs ≡ₚ connected tor).
Proof.
  unfold ConnectToPeers. run_M. split.
  - pose proof (run_finishes tor
      (sched ++ sequential (length (peer2peer.Peers tor)))
      (mkConnState [] (Dialing <$> peer2peer.Peers tor)) w) as Hfin.
    destruct (run tor _ _ w) as [st w']. cbn [fst] in Hfin.
    rewrite Hfin.
    + by case_decide.
    + cbn [goroutines]. rewrite length_fmap. intros j Hj.
      rewrite count_occ_app, count_occ_sequential by done. lia.
  - intros cs err.
    pose proof (run_pending tor sched
      (mkConnState [] (Dialing <$> peer2peer.Peers tor)) w) as Hperm.
    destruct (run tor sched _ w) as [st w'].
    cbn [fst clients goroutines] in Hperm.
    destruct (forallb is_finished (goroutines st)) eqn:Hfin; [|done].
    rewrite (finished_pending tor _ Hfin), app_nil_r in Hperm.
    rewrite app_nil_l, pending_initial in Hperm.
    rewrite <- connected_nil.
    case_decide as Hlen; cbn [fst]; intros [= <- <-].
    + apply nil_length_inv in Hlen. rewrite Hlen in Hperm.
      apply Permutation_nil_l in Hperm.
      split; [split; [done|eauto]|]. by split.
    + split; [|split]; [|by intros [? ?]|done].
      split; [by intros [? ?]|]. intros Hnil. rewrite Hnil in Hperm.
      apply Permutation_nil_r in Hperm. by rewrite Hperm in Hlen.
Qed.

End Properties.

(** * The properties at work on the small instance *)

Lemma splitPieceHashes_spec_witness :
  length (list_byte_of_string (Pieces test_info)) mod 20 = 0
  /\ (splitPieceHashes test_info).2 = None
  /\ length (splitPieceHashes test_info).1 = 2.
Proof.
  destruct (splitPieceHashes_spec test_info) as (_ & _ & Hok).
  destruct (Hok eq_refl) as (Herr & Hlen & _).
  split; [reflexivity|]. split; [exact Herr|exact Hlen].
Defined.

Lemma toTorrentFile_InfoHash_witness :
  bencode_Marshal (Externals := test_externals) test_info
    = inl (list_byte_of_string "fileaaaaaaaaaaaaaaaaaaaabbbbbbbbbbbbbbbbbbbb")
  /\ InfoHash (toTorrentFile (H := test_externals)
                 (mkBencodeTorrent "/announce" test_info)).1
     = copy (zero_array 20) (list_byte_of_string "fileaaaaaaaaaaaaaaaa").
Proof.
  split; [reflexivity|].
  rewrite (toTorrentFile_InfoHash (H := test_externals)
             (mkBencodeTorrent "/announce" test_info)
             (list_byte_of_string "fileaaaaaaaaaaaaaaaaaaaabbbbbbbbbbbbbbbbbbbb")
             (toTorrentFile (H := test_externals)
                (mkBencodeTorrent "/announce" test_info)).1);
    reflexivity.
Defined.

Lemma requestPeers_single_GET_witness :
  url_Parse (Externals := test_externals) (Announce test_file)
    = inl (url.mkURL "http" "" None "tracker" "/announce" "" false "" "" "")
  /\ trace (requestPeers (H := test_externals) test_file
              (copy (zero_array 20) (list_byte_of_string "-XX0001-abcdefghij l"))
              Port test_world).2
     = [EvHttpGet
          "http://tracker/announce?compact=1&downloaded=0&info_hash=%00%00%00%00%00%00%00%00%00%00%00%00%00%00%00%00%00%00%00%00&left=0&peer_id=-XX0001-abcdefghij+l&port=6881&uploaded=0"].
Proof.
  split; [reflexivity|].
  destruct (requestPeers_single_GET (H := test_externals) test_file
              (copy (zero_array 20) (list_byte_of_string "-XX0001-abcdefghij l"))
              Port test_world
              (url.mkURL "http" "" None "tracker" "/announce" "" false "" "" "")
              eq_refl) as [Htrace _].
  rewrite Htrace. vm_compute. reflexivity.
Defined.

Lemma GetTorrent_frame_witness :
  (GetTorrent (H := test_externals) test_file test_world).1.1.2 = None
  /\ (GetTorrent (H := test_externals) test_file test_world).1.2 = test_file
  /\ peer2peer.Length (GetTorrent (H := test_externals) test_file test_world).1.1.1
     = Length test_file.
Proof.
  destruct (GetTorrent_frame (H := test_externals) test_file test_world)
    as [Hrecv Hfields].
  destruct (Hfields eq_refl) as (_ & _ & _ & Hlen & _).
  split; [reflexivity|]. split; [exact Hrecv|exact Hlen].
Defined.

Lemma startup_errors_fatal_witness :
  (requestPeers (H := test_externals) (mkTorrentFile ":" (zero_array 20) [] 4 8 "file")
     (copy (zero_array 20) (rand_Read (Externals := test_externals) 20).1)
     Port test_world).1.1.2
    = Some "missing protocol scheme"
  /\ (GetTorrent (H := test_externals)
        (mkTorrentFile ":" (zero_array 20) [] 4 8 "file") test_world).1.1
     = (peer2peer.Torrent_zero, Some "missing protocol scheme")
  /\ main (H := test_externals) "missing" "out" [] test_world
     = (Fatal (no_such_file "missing"), test_world).
Proof.
  destruct (startup_errors_fatal (H := test_externals) "missing" "out" []
              test_world) as (Hget & _ & Hopen & _).
  split; [reflexivity|]. split.
  - apply Hget. right. split; reflexivity.
  - apply Hopen. right. left. repeat split; reflexivity.
Defined.

Lemma ConnectToPeers_spec_witness :
  (ConnectToPeers (H := test_externals) [3; 1; 0; 3; 1; 2] test_torrent
     test_world).1 = Some ([104; 102], None)
  /\ [104; 102] ≡ₚ connected (H := test_externals) test_torrent.
Proof.
  split; [vm_compute; reflexivity|].
  destruct (ConnectToPeers_spec (H := test_externals) test_torrent
              [3; 1; 0; 3; 1; 2] test_world) as [_ Hspec].
  destruct (Hspec [104; 102] None) as (_ & _ & Hperm);
    [vm_compute; reflexivity|].
  exact (Hperm eq_refl).
Defined.

Lemma DownloadToFile_download_error_witness :
  Download (Externals := test_externals) test_torrent [] = inr "no peers left"
  /\ DownloadToFile (H := test_externals) test_file "out" test_torrent []
       test_world
     = ((Some "no peers left", test_file), test_world).
Proof.
  split; [reflexivity|].
  by apply (DownloadToFile_download_error (H := test_externals)).
Defined.

Lemma DownloadToFile_writes_buffer_witness :
  Download (Externals := test_externals) test_torrent [104; 102]
    = inl (replicate 8 "d"%byte)
  /\ (DownloadToFile (H := test_externals) test_file "out" test_torrent
        [104; 102] test_world).1.1 = None
  /\ fs (DownloadToFile (H := test_externals) test_file "out" test_torrent
           [104; 102] test_world).2 !! "out"
     = Some (replicate 8 "d"%byte).
Proof.
  destruct (DownloadToFile_writes_buffer (H := test_externals) test_file "out"
              test_torrent [104; 102] test_world (replicate 8 "d"%byte)
              eq_refl) as [Hnil Hfile].
  assert (Herr : (DownloadToFile (H := test_externals) test_file "out"
                    test_torrent [104; 102] test_world).1.1 = None).
  { apply Hnil. split; reflexivity. }
  split; [reflexivity|]. split; [exact Herr|]. exact (proj1 (Hfile Herr)).
Defined.

Lemma DownloadToFile_overwrites_witness :
  fs test_world !! "out" = Some [x01; x02]
  /\ fs (DownloadToFile (H := test_externals) test_file "out" test_torrent
           [104; 102] test_world).2 !! "out"
     = Some (replicate 8 "d"%byte).
Proof.
  assert (Hold : fs test_world !! "out" = Some [x01; x02])
    by (vm_compute; reflexivity).
  destruct (DownloadToFile_overwrites (H := test_externals) test_file "out"
              test_torrent [104; 102] test_world [x01; x02] Hold)
    as [_ Hfile].
  split; [exact Hold|].
  apply (Hfile (replicate 8 "d"%byte)); vm_compute; reflexivity.
Defined.

(** * Further properties of the package *)

Section Further.

Context `{Externals}.

Implicit Types (t : TorrentFile) (w : World) (e : error).
Implicit Types (tor : peer2peer.Torrent Peer) (st : ConnState).

Ltac run_M' :=
  unfold mbind, M_bind, mret, M_ret, emit, modify_fs, get_fs in *;
  cbn [fst snd fs trace] in *.

(** ** splitPieceHashes and toTorrentFile *)

Lemma splitLoop_chunks (buf : list byte) (n : nat) :
  n * 20 <= length buf ->
  vec_to_list <$> splitLoop buf n 0 (replicate n (zero_array 20))
  = (fun k => take 20 (drop (k * 20) buf)) <$> seq 0 n.
Proof.
  intros Hn. apply list_eq. intros k.
  rewrite !list_lookup_fmap, splitLoop_lookup.
  destruct (decide (k < n)) as [Hk|Hk].
  - rewrite decide_True by lia.
    rewrite lookup_replicate_2, lookup_seq_lt by done.
    cbn [fmap option_fmap option_map]. f_equal.
    unfold hashLen. rewrite vec_to_list_copy_full.
    + unfold slice. f_equal. lia.
    + rewrite length_slice by lia. lia.
  - rewrite decide_False by lia.
    rewrite lookup_seq_ge by lia.
    by rewrite (proj1 (lookup_replicate_None n (zero_array 20) k)) by lia.
Qed.

Lemma concat_chunks (buf : list byte) (n : nat) :
  concat ((fun k => take 20 (drop (k * 20) buf)) <$> seq 0 n)
  = take (n * 20) buf.
Proof.
  induction n as [|n IH]; [done|].
  rewrite seq_S, fmap_app, concat_app, IH. cbn [fmap list_fmap concat].
  rewrite app_nil_r, take_take_drop. f_equal. lia.
Qed.

(** X1. The hashes that [splitPieceHashes] returns are the pieces string cut
    up: put end to end they give it back. *)
Theorem splitPieceHashes_concat (i : bencodeInfo) :
  (splitPieceHashes i).2 = None ->
  string_of_list_byte (concat (vec_to_list <$> (splitPieceHashes i).1))
  = Pieces i.
Proof.
  unfold splitPieceHashes, hashLen.
  destruct (decide (length (list_byte_of_string (Pieces i)) mod 20 <> 0))
    as [Hbad|Hok]; [done|].
  intros _. cbn [fst].
  pose proof (Nat.div_mod_eq (length (list_byte_of_string (Pieces i))) 20).
  rewrite splitLoop_chunks, concat_chunks by lia.
  rewrite take_ge by lia. apply string_of_list_byte_of_string.
Qed.

(** X2. [toTorrentFile] hashes before it splits: a serialization error is
    returned whatever the pieces string is; with a serializable dictionary
    the only error is the malformed-pieces one; and on success the fields
    are those of the decoded file, with one hash for every twenty bytes of
    the pieces string. *)
Theorem toTorrentFile_outcomes (bto : bencodeTorrent) :
  let len := length (list_byte_of_string (Pieces (Info bto))) in
  match bencode_Marshal (Info bto) with
  | inr e => toTorrentFile bto = (TorrentFile_zero, Some e)
  | inl buf =>
      if decide (len mod 20 = 0) then
        exists hashes,
          toTorrentFile bto
          = (mkTorrentFile (Bto_Announce bto) (sha1_Sum buf) hashes
               (Info_PieceLength (Info bto)) (Info_Length (Info bto))
               (Info_Name (Info bto)), None)
          /\ length hashes * 20 = len
      else toTorrentFile bto = (TorrentFile_zero, Some (malformed_pieces len))
  end.
Proof.
  intros len. unfold toTorrentFile, hash.
  destruct (bencode_Marshal (Info bto)) as [buf|e]; [|done].
  unfold splitPieceHashes, hashLen. fold len.
  destruct (decide (len mod 20 = 0)) as [Hok|Hbad].
  - rewrite decide_False by lia.
    eexists. split; [reflexivity|].
    rewrite splitLoop_length, length_replicate.
    pose proof (Nat.div_mod_eq len 20). lia.
  - by rewrite decide_True by done.
Qed.

(** ** The tracker request *)

(** X3. When [Announce] does not parse, [requestPeers] returns the parse
    error and no peers, and nothing is sent: the world is as before. *)
Theorem requestPeers_parse_error t (peerID : Array20) (port : N) w e :
  url_Parse (Announce t) = inr e ->
  buildTrackerURL t peerID port = (("", Some e), t)
  /\ requestPeers t peerID port w = (([], Some e), t, w).
Proof.
  intros He. unfold requestPeers, buildTrackerURL. rewrite He. by run_M'.
Qed.

(** X4. The request to the tracker depends on the torrent file through
    [Announce] and [InfoHash] only: two files that agree on these make the
    same request and get the same answer, whatever their lengths and piece
    hashes are ([left] is always [0]). *)
Theorem requestPeers_announce_and_hash_only t t' (peerID : Array20) (port : N) w :
  Announce t = Announce t' -> InfoHash t = InfoHash t' ->
  (requestPeers t peerID port w).1.1 = (requestPeers t' peerID port w).1.1
  /\ (requestPeers t peerID port w).2 = (requestPeers t' peerID port w).2.
Proof.
  intros Ha Hh. unfold requestPeers, buildTrackerURL, tracker_params.
  rewrite Ha, Hh. destruct (url_Parse (Announce t')) as [base|e]; [|done].
  unfold Client_Get. run_M'.
  destruct (http_Get _) as [body|e]; [|done].
  by destruct (bencode_Unmarshal_tracker body).
Qed.

(** X5. A query string that the announce URL already has is dropped: the
    request is the same as for the announce URL without it. *)
Theorem buildTrackerURL_drops_query t t' (peerID : Array20) (port : N)
    (base : url.URL) (q : string) :
  url_Parse (Announce t) = inl base ->
  url_Parse (Announce t') = inl (url.set_RawQuery q base) ->
  InfoHash t = InfoHash t' ->
  (buildTrackerURL t peerID port).1 = (buildTrackerURL t' peerID port).1.
Proof.
  intros Hb Hb' Hh. unfold buildTrackerURL, tracker_params.
  by rewrite Hb, Hb', Hh.
Qed.

Lemma string_forall_app (P : ascii -> bool) (a b : string) :
  string_forall P (a +:+ b) = string_forall P a && string_forall P b.
Proof.
  induction a as [|c a IH]; [done|].
  change (P c && string_forall P (a +:+ b)
          = P c && string_forall P a && string_forall P b).
  rewrite IH. by destruct (P c).
Qed.

Lemma escape_char_safe (c : ascii) :
  string_forall query_char (url.escape_char c) = true.
Proof.
  destruct c as [[] [] [] [] [] [] [] []]; vm_compute; reflexivity.
Qed.

Lemma QueryEscape_safe (s : string) :
  string_forall query_char (url.QueryEscape s) = true.
Proof.
  induction s as [|c s IH]; [done|].
  cbn [url.QueryEscape]. by rewrite string_forall_app, escape_char_safe, IH.
Qed.

(** X6. Whatever bytes the info hash and the peer id hold, the query that
    [buildTrackerURL] puts into the URL consists of letters, digits and
    [- _ . ~ % + & =] only. *)
Theorem buildTrackerURL_query_safe t (peerID : Array20) (port : N)
    (base : url.URL) :
  url_Parse (Announce t) = inl base ->
  exists q,
    buildTrackerURL t peerID port
    = ((URL_String (url.set_RawQuery q base), None), t)
    /\ string_forall query_char q = true.
Proof.
  intros Hb. exists (url.Encode (tracker_params t peerID port)).
  split; [by apply buildTrackerURL_parsed|].
  unfold tracker_params. rewrite Encode_tracker_params.
  rewrite !string_forall_app, !QueryEscape_safe. reflexivity.
Qed.

(** X7. On success [GetTorrent] has sent one request and touched no file;
    the peer id and the info hash in that request are the [PeerID] and the
    [InfoHash] of the [Torrent] it returns, the port is 6881, and the
    [Peers] are those that the tracker's answer decodes to. *)
Theorem GetTorrent_announces_itself t w :
  (GetTorrent t w).1.1.2 = None ->
  let tor := (GetTorrent t w).1.1.1 in
  exists base,
    url_Parse (Announce t) = inl base
    /\ trace (GetTorrent t w).2
       = trace w ++
         [EvHttpGet (URL_String (url.set_RawQuery
            ("compact=1&downloaded=0&info_hash="
               +:+ url.QueryEscape (array_string (peer2peer.InfoHash tor))
               +:+ "&left=0&peer_id="
               +:+ url.QueryEscape (array_string (peer2peer.PeerID tor))
               +:+ "&port=6881&uploaded=0") base))]
    /\ fs (GetTorrent t w).2 = fs w
    /\ peer2peer.Peers tor
       = (requestPeers t (peer2peer.PeerID tor) Port w).1.1.1
    /\ (length (rand_Read 20).1 = 20 ->
        vec_to_list (peer2peer.PeerID tor) = (rand_Read 20).1).
Proof.
  unfold GetTorrent.
  destruct (rand_Read 20) as [random [e|]] eqn:Hrand; [done|].
  run_M'. set (peerID := copy (zero_array 20) random).
  destruct (url_Parse (Announce t)) as [base|e] eqn:Hbase.
  - pose proof (requestPeers_trace t peerID Port w _
                  (buildTrackerURL_parsed t peerID Port base Hbase)) as Htr.
    pose proof (requestPeers_world t peerID Port w) as [Hfs _].
    pose proof (requestPeers_receiver t peerID Port w) as Hrecv.
    destruct (requestPeers t peerID Port w) as [[[ps [e|]] t'] w'] eqn:Hreq;
      cbn [fst snd] in *; [done|]. subst t'.
    intros _. exists base. split; [done|]. split; [|split; [done|split]].
    + rewrite Htr. unfold tracker_params.
      rewrite Encode_tracker_params, QueryEscape_Itoa.
      change (pretty Port) with "6881". reflexivity.
    + cbn [peer2peer.Peers peer2peer.PeerID]. by rewrite Hreq.
    + intros Hlen. by apply vec_to_list_copy_full.
  - unfold requestPeers, buildTrackerURL. rewrite Hbase. by run_M'.
Qed.

(** ** ConnectToPeers *)

Lemma step_world tor st (k : nat) w :
  fs (step tor st k w).2 = fs w
  /\ trace (step tor st k w).2
     = trace w ++ match goroutines st !! k with
                  | Some (Dialing p) => [EvDial p]
                  | _ => []
                  end.
Proof.
  unfold step. destruct (goroutines st !! k) as [[p|c|]|]; run_M';
    rewrite ?app_nil_r; try done.
  by destruct (client_New p _ _).
Qed.

(** A step dials a peer that was still to be dialed, or dials none. *)
Lemma step_undialed tor st (k : nat) w :
  match goroutines st !! k with
  | Some (Dialing p) => [p]
  | _ => []
  end ++ omap undialed (goroutines (step tor st k w).1)
  ≡ₚ omap undialed (goroutines st).
Proof.
  rewrite step_goroutines.
  destruct (goroutines st !! k) as [g|] eqn:Hk.
  - assert (Halter : alter (advance tor) k (goroutines st)
                     = <[k := advance tor g]> (goroutines st)).
    { apply list_eq. intros j. rewrite list_lookup_alter, list_lookup_insert.
      pose proof (lookup_lt_Some _ _ _ Hk).
      repeat case_decide; simplify_eq; try lia; by rewrite ?Hk. }
    rewrite Halter.
    destruct (omap_insert undialed _ k _ (advance tor g) Hk) as [-> ->].
    destruct g as [p|c|]; cbn [omap list_omap undialed advance app].
    + destruct (handshake tor p); cbn [undialed app];
        by rewrite Permutation_middle.
    + done.
    + done.
  - assert (alter (advance tor) k (goroutines st) = goroutines st) as ->;
      [|done].
    apply list_eq. intros j. rewrite list_lookup_alter.
    case_decide; [|done]. subst. by rewrite Hk.
Qed.

Lemma run_dials tor (sched : list nat) st w :
  exists ps,
    trace (run tor sched st w).2 = trace w ++ (EvDial <$> ps)
    /\ fs (run tor sched st w).2 = fs w
    /\ ps ++ omap undialed (goroutines (run tor sched st w).1)
       ≡ₚ omap undialed (goroutines st).
Proof.
  revert st w. induction sched as [|k sched IH]; intros st w.
  { exists []. cbn [run]. run_M'. by rewrite app_nil_r. }
  cbn [run]. run_M'.
  destruct (step_world tor st k w) as [Hfs Htr].
  pose proof (step_undialed tor st k w) as Hperm.
  destruct (step tor st k w) as [st' w']. cbn [fst snd] in *.
  destruct (IH st' w') as (ps & Htr' & Hfs' & Hperm').
  exists (match goroutines st !! k with
          | Some (Dialing p) => [p]
          | _ => []
          end ++ ps).
  split; [|split].
  - rewrite Htr', Htr, fmap_app, app_assoc. do 2 f_equal.
    by destruct (goroutines st !! k) as [[| |]|].
  - by rewrite Hfs'.
  - by rewrite <- app_assoc, Hperm'.
Qed.

Lemma finished_undialed (gs : list Goroutine) :
  forallb is_finished gs = true -> omap undialed gs = [].
Proof.
  induction gs as [|g gs IH]; [done|]. cbn [forallb].
  intros [Hg Hgs]%andb_true_iff. destruct g; try done.
  cbn [omap list_omap undialed]. by apply IH.
Qed.

Lemma undialed_initial tor :
  omap undialed (goroutines (initial tor)) = peer2peer.Peers tor.
Proof.
  unfold initial. cbn [goroutines].
  induction (peer2peer.Peers tor) as [|p ps IH]; [done|].
  cbn [fmap list_fmap omap list_omap undialed]. by rewrite IH.
Qed.

Lemma ConnectToPeers_dials_fs tor (sched : list nat) w :
  fs (ConnectToPeers sched tor w).2 = fs w.
Proof.
  unfold ConnectToPeers. run_M'.
  destruct (run_dials tor sched (mkConnState [] (Dialing <$> peer2peer.Peers tor)) w)
    as (ps & _ & Hfs & _).
  destruct (run tor sched _ w) as [st w']. cbn [snd] in *.
  destruct (forallb is_finished (goroutines st)); [by case_decide|done].
Qed.

(** X8. [ConnectToPeers] touches no file and its only calls are dials.  At
    no point of any schedule has a peer been dialed twice, and when
    [ConnectToPeers] returns every peer of [torrent.Peers] has been dialed
    exactly once. *)
Theorem ConnectToPeers_dials_each_once tor (sched : list nat) w :
  exists ps,
    trace (ConnectToPeers sched tor w).2 = trace w ++ (EvDial <$> ps)
    /\ fs (ConnectToPeers sched tor w).2 = fs w
    /\ ps ⊆+ peer2peer.Peers tor
    /\ (is_Some (ConnectToPeers sched tor w).1 -> ps ≡ₚ peer2peer.Peers tor).
Proof.
  unfold ConnectToPeers. run_M'.
  destruct (run_dials tor sched (initial tor) w) as (ps & Htr & Hfs & Hperm).
  rewrite undialed_initial in Hperm. unfold initial in *.
  destruct (run tor sched _ w) as [st w']. cbn [fst snd] in *.
  exists ps.
  assert (Hsub : ps ⊆+ peer2peer.Peers tor).
  { rewrite <- Hperm. apply submseteq_inserts_r. done. }
  destruct (forallb is_finished (goroutines st)) eqn:Hfin.
  - rewrite (finished_undialed _ Hfin), app_nil_r in Hperm.
    by case_decide.
  - cbn [fst snd]. repeat split; try done; by intros [? ?].
Qed.

Lemma omap_length_le {A B : Type} (f : A -> option B) (l : list A) :
  length (omap f l) <= length l.
Proof.
  induction l as [|x l IH]; [done|]. cbn [omap list_omap].
  destruct (f x); cbn [length]; lia.
Qed.

(** X9. At every point of every schedule the shared [clients] slice holds
    clients of peers whose handshake succeeded, each at most once: it is a
    sub-multiset of the clients that [ConnectToPeers] is to return. *)
Theorem ConnectToPeers_clients_invariant tor (sched : list nat) w :
  clients (run tor sched (initial tor) w).1 ⊆+ connected tor
  /\ length (clients (run tor sched (initial tor) w).1)
     <= length (peer2peer.Peers tor).
Proof.
  pose proof (run_pending tor sched (initial tor) w) as Hperm.
  unfold initial in Hperm at 3 4. cbn [clients goroutines] in Hperm.
  rewrite app_nil_l, pending_initial in Hperm.
  assert (Hsub : clients (run tor sched (initial tor) w).1 ⊆+ connected tor).
  { rewrite <- Hperm. by apply submseteq_inserts_r. }
  split; [done|].
  apply submseteq_length in Hsub. etrans; [exact Hsub|].
  unfold connected. apply omap_length_le.
Qed.

(** The goroutines of the peers [ps], run one after the other behind [lo]
    goroutines that are done. *)
Lemma run_sequential tor (ps : list Peer) (lo : nat) (cs : list Client) w :
  run tor (flat_map (fun k => [k; k]) (seq lo (length ps)))
      (mkConnState cs (replicate lo Finished ++ (Dialing <$> ps))) w
  = (mkConnState (cs ++ omap (handshake tor) ps)
       (replicate (lo + length ps) Finished),
     mkWorld (fs w) (trace w ++ (EvDial <$> ps))).
Proof.
  revert lo cs w. induction ps as [|p ps IH]; intros lo cs w.
  { cbn [length seq flat_map run fmap list_fmap omap list_omap]. run_M'.
    rewrite !app_nil_r, Nat.add_0_r. by destruct w. }
  cbn [length seq flat_map app run fmap list_fmap].
  assert (Hlo : forall g rest,
            (replicate lo Finished ++ g :: rest) !! lo = Some g).
  { intros g rest. rewrite lookup_app_r by (rewrite length_replicate; lia).
    by rewrite length_replicate, Nat.sub_diag. }
  assert (Hins : forall g g' rest,
            <[lo := g']> (replicate lo Finished ++ g :: rest)
            = replicate lo Finished ++ g' :: rest).
  { intros g g' rest.
    rewrite insert_app_r_alt by (rewrite length_replicate; lia).
    by rewrite length_replicate, Nat.sub_diag. }
  assert (Hnext : forall rest : list Goroutine,
            replicate lo Finished ++ Finished :: rest
            = replicate (S lo) Finished ++ rest).
  { intros rest. by rewrite replicate_S_end, <- app_assoc. }
  unfold step at 2. cbn [goroutines clients]. rewrite Hlo. run_M'.
  cbn [omap list_omap]. unfold handshake at 1.
  destruct (client_New p _ _) as [c|e]; run_M'; rewrite Hins;
    unfold step; cbn [goroutines clients]; rewrite Hlo; run_M'.
  - rewrite Hins, Hnext, IH. cbn [fs trace].
    rewrite <- !app_assoc. do 3 f_equal. lia.
  - rewrite Hnext, IH. cbn [fs trace].
    rewrite <- !app_assoc. do 3 f_equal. lia.
Qed.

(** X10. When the goroutines happen to run one after the other,
    [ConnectToPeers] dials the peers in the order of [torrent.Peers] and
    returns the clients in that order, as a sequential loop would. *)
Theorem ConnectToPeers_sequential tor w :
  ConnectToPeers (sequential (length (peer2peer.Peers tor))) tor w
  = (Some (if decide (length (connected tor) = 0) then ([], Some no_peers)
           else (connected tor, None)),
     mkWorld (fs w) (trace w ++ (EvDial <$> peer2peer.Peers tor))).
Proof.
  unfold ConnectToPeers, sequential. run_M'.
  pose proof (run_sequential tor (peer2peer.Peers tor) 0 [] w) as Hrun.
  cbn [replicate app] in Hrun. rewrite Hrun. cbn [goroutines clients].
  assert (Hfin : forall n, forallb is_finished (replicate n Finished) = true).
  { intros n. induction n as [|n IHn]; [done|]. exact IHn. }
  rewrite Hfin. unfold connected. by case_decide.
Qed.

(** ** DownloadToFile *)

Lemma DownloadToFile_other_paths t (path p : string) tor (cs : list Client) w :
  p <> path ->
  fs (DownloadToFile t path tor cs w).2 !! p = fs w !! p.
Proof.
  intros Hp. destruct (Download tor cs) as [buf|e] eqn:Hd.
  - rewrite (DownloadToFile_downloaded _ _ _ _ _ _ Hd).
    destruct (create_err path); [done|].
    destruct (write_err path buf) as [[n e]|]; cbn [snd fs];
      by rewrite lookup_insert_ne.
  - unfold DownloadToFile. rewrite Hd. by run_M'.
Qed.

(** X11. [DownloadToFile] touches no file but the one at [path]; the calls
    it makes are the creation, the write and the close of that file, and it
    closes the file exactly when it has created it, also when the write
    fails. *)
Theorem DownloadToFile_frame t (path : string) tor (cs : list Client) w :
  (forall p, p <> path ->
     fs (DownloadToFile t path tor cs w).2 !! p = fs w !! p)
  /\ exists evs,
       trace (DownloadToFile t path tor cs w).2 = trace w ++ evs
       /\ (forall ev, ev ∈ evs ->
              ev = EvCreate path \/ ev = EvClose path
              \/ exists buf, Download tor cs = inl buf /\ ev = EvWrite path buf)
       /\ (EvClose path ∈ evs
           <-> (exists buf, Download tor cs = inl buf) /\ create_err path = None).
Proof.
  split; [intros p Hp; by apply DownloadToFile_other_paths|].
  destruct (Download tor cs) as [buf|e] eqn:Hd.
  - rewrite (DownloadToFile_downloaded _ _ _ _ _ _ Hd).
    destruct (create_err path) as [e|].
    + exists [EvCreate path]. cbn [snd trace]. split; [done|]. split.
      * intros ev ->%list_elem_of_singleton. by left.
      * split; [by intros [=]%list_elem_of_singleton|by intros [_ [=]]].
    + exists [EvCreate path; EvWrite path buf; EvClose path].
      split; [by destruct (write_err path buf) as [[n e]|]|]. split.
      * intros ev Hev. rewrite !elem_of_cons in Hev.
        destruct Hev as [->|[->|[->|Hev]]]; eauto.
        by apply not_elem_of_nil in Hev.
      * split; [eauto|]. intros _. rewrite !elem_of_cons. eauto.
  - exists []. unfold DownloadToFile. rewrite Hd. run_M'.
    split; [by rewrite app_nil_r|]. split.
    + by intros ev Hev%not_elem_of_nil.
    + split; [by intros Hev%not_elem_of_nil|by intros [[buf [=]] _]].
Qed.

(** X12. The failures of [DownloadToFile] after a successful download: when
    the file cannot be created no file changes; when the write fails after
    [n] bytes the error is returned and the file holds those [n] bytes
    only, what it held before being lost. *)
Theorem DownloadToFile_failures t (path : string) tor (cs : list Client) w
    (buf : list byte) :
  Download tor cs = inl buf ->
  (forall e, create_err path = Some e ->
     (DownloadToFile t path tor cs w).1 = (Some e, t)
     /\ fs (DownloadToFile t path tor cs w).2 = fs w)
  /\ (forall n e, create_err path = None -> write_err path buf = Some (n, e) ->
       (DownloadToFile t path tor cs w).1 = (Some e, t)
       /\ fs (DownloadToFile t path tor cs w).2 !! path = Some (take n buf)).
Proof.
  intros Hd. rewrite (DownloadToFile_downloaded _ _ _ _ _ _ Hd). split.
  - by intros e ->.
  - intros n e -> ->. cbn [fst snd fs]. by rewrite lookup_insert_eq.
Qed.

(** ** main *)

Lemma Open_success (path : string) w (tf : TorrentFile) :
  (Open path w).1 = (tf, None) ->
  exists data bto,
    fs w !! path = Some data
    /\ bencode_Unmarshal_torrent data = inl bto
    /\ toTorrentFile bto = (tf, None).
Proof.
  unfold Open, os_Open. run_M'.
  destruct (open_err path); [done|].
  destruct (fs w !! path) as [data|]; [|done].
  destruct (bencode_Unmarshal_torrent data) as [bto|] eqn:Hbto; [|done].
  cbn [fst]. eauto.
Qed.

Lemma GetTorrent_success t w tor :
  (GetTorrent t w).1.1 = (tor, None) ->
  (GetTorrent t w).1.2 = t
  /\ fs (GetTorrent t w).2 = fs w
  /\ (exists u, trace (GetTorrent t w).2 = trace w ++ [EvHttpGet u])
  /\ exists ps pid,
       tor = peer2peer.mkTorrent ps pid (InfoHash t) (PieceHashes t)
               (PieceLength t) (Length t) (Name t).
Proof.
  unfold GetTorrent.
  destruct (rand_Read 20) as [random [e|]]; [done|]. run_M'.
  set (peerID := copy (zero_array 20) random).
  pose proof (requestPeers_receiver t peerID Port w) as Hrecv.
  pose proof (requestPeers_world t peerID Port w) as [Hfs Htr].
  assert (Hsent : (requestPeers t peerID Port w).1.1.2 = None ->
            exists u, trace (requestPeers t peerID Port w).2
                      = trace w ++ [EvHttpGet u]).
  { destruct (url_Parse (Announce t)) as [base|e] eqn:Hbase.
    - intros _. eexists. apply requestPeers_trace.
      by apply buildTrackerURL_parsed.
    - unfold requestPeers, buildTrackerURL. rewrite Hbase. by run_M'. }
  destruct (requestPeers t peerID Port w) as [[[ps [e|]] t'] w'];
    cbn [fst snd] in *; [done|].
  intros [= <-]. subst t'. eauto 10.
Qed.

Lemma ConnectToPeers_returned tor (sched : list nat) w (cs : list Client)
    (err : option error) :
  (ConnectToPeers sched tor w).1 = Some (cs, err) ->
  fs (ConnectToPeers sched tor w).2 = fs w
  /\ (exists ps, trace (ConnectToPeers sched tor w).2
                 = trace w ++ (EvDial <$> ps)
                 /\ ps ≡ₚ peer2peer.Peers tor)
  /\ match err with
     | Some e => e = no_peers /\ cs = [] /\ connected tor = []
     | None => cs ≡ₚ connected tor /\ cs <> []
     end.
Proof.
  unfold ConnectToPeers. run_M'.
  destruct (run_dials tor sched (initial tor) w) as (ps & Htr & Hfs & Hdial).
  pose proof (run_pending tor sched (initial tor) w) as Hperm.
  rewrite undialed_initial in Hdial.
  unfold initial in *. cbn [clients goroutines] in Hperm.
  rewrite app_nil_l, pending_initial in Hperm.
  destruct (run tor sched _ w) as [st w']. cbn [fst snd] in *.
  destruct (forallb is_finished (goroutines st)) eqn:Hfin; [|done].
  rewrite (finished_undialed _ Hfin), app_nil_r in Hdial.
  rewrite (finished_pending tor _ Hfin), app_nil_r in Hperm.
  case_decide as Hlen; cbn [fst snd]; intros [= <- <-].
  - split; [done|]. split; [eauto|].
    apply nil_length_inv in Hlen. rewrite Hlen in Hperm.
    by apply Permutation_nil_l in Hperm.
  - split; [done|]. split; [eauto|]. split; [done|].
    intros Hnil. by rewrite Hnil in Hlen.
Qed.

(** X13. When [main] gets as far as seeding, the tracker was asked first,
    then every peer was dialed once, then the output file was created,
    written and closed; the torrent handed on carries the SHA-1 of the
    re-serialized info dictionary of the input file and its name and
    lengths; the clients are those of the peers that answered the
    handshake; and the output file holds what [Download] returned. *)
Theorem main_Seeding (inPath outPath : string) (sched : list nat) w
    (cs : list Client) tor (out : string) :
  (main inPath outPath sched w).1 = Seeding cs tor out ->
  out = outPath
  /\ (exists data bto buf,
        fs w !! inPath = Some data
        /\ bencode_Unmarshal_torrent data = inl bto
        /\ bencode_Marshal (Info bto) = inl buf
        /\ peer2peer.InfoHash tor = sha1_Sum buf
        /\ peer2peer.Name tor = Info_Name (Info bto)
        /\ peer2peer.Length tor = Info_Length (Info bto)
        /\ peer2peer.PieceLength tor = Info_PieceLength (Info bto))
  /\ cs ≡ₚ connected tor /\ cs <> []
  /\ exists content u ps,
       Download tor cs = inl content
       /\ fs (main inPath outPath sched w).2 = <[outPath := content]> (fs w)
       /\ ps ≡ₚ peer2peer.Peers tor
       /\ trace (main inPath outPath sched w).2
          = trace w ++ [EvHttpGet u] ++ (EvDial <$> ps)
              ++ [EvCreate outPath; EvWrite outPath content; EvClose outPath].
Proof.
  unfold main. run_M'.
  pose proof (Open_world inPath w) as Hw1.
  pose proof (Open_success inPath w) as Hopen.
  destruct (Open inPath w) as [[tf [e|]] w1]; cbn [fst snd] in *; [done|].
  subst w1. destruct (Hopen tf eq_refl) as (data & bto & Hdata & Hbto & Htf).
  pose proof (GetTorrent_success tf w) as Hget.
  destruct (GetTorrent tf w) as [[[tor' [e|]] tf'] w2]; cbn [fst snd] in *;
    [done|].
  destruct (Hget tor' eq_refl)
    as (-> & Hfs2 & [u Htr2] & ps0 & pid & Htor).
  pose proof (ConnectToPeers_returned tor' sched w2) as Hconn.
  destruct (ConnectToPeers sched tor' w2) as [[[cs' [e|]]|] w3];
    cbn [fst snd] in *; [done| |done].
  destruct (Hconn cs' None eq_refl) as (Hfs3 & (ps & Htr3 & Hps) & Hcs & Hne).
  destruct (Download tor' cs') as [content|e] eqn:Hd.
  - rewrite (DownloadToFile_downloaded _ _ _ _ _ _ Hd).
    destruct (create_err outPath); [done|].
    destruct (write_err outPath content) as [[n e]|]; [done|].
    cbn [fst snd fs trace]. intros [= <- <- <-].
    split; [done|]. split.
    { unfold toTorrentFile, hash in Htf.
      destruct (bencode_Marshal (Info bto)) as [buf|] eqn:Hbuf; [|done].
      destruct (splitPieceHashes (Info bto)) as [hs [e|]]; [done|].
      injection Htf as <-. exists data, bto, buf. by subst tor'. }
    split; [done|]. split; [done|].
    exists content, u, ps. split; [done|]. split; [by rewrite Hfs3, Hfs2|].
    split; [done|]. rewrite Htr3, Htr2. by rewrite <- !app_assoc.
  - unfold DownloadToFile. rewrite Hd. by run_M'.
Qed.


(** X15. When no peer answers the handshake (or the tracker lists none),
    [main] stops with the no-peers error as soon as the goroutines are done:
    it creates no file and leaves the file system as it was. *)
Theorem main_no_peer_answers (inPath outPath : string) (sched : list nat) w
    (tf : TorrentFile) tor :
  (Open inPath w).1 = (tf, None) ->
  (GetTorrent tf w).1.1 = (tor, None) ->
  connected tor = [] ->
  ((main inPath outPath sched w).1 = Fatal no_peers
   \/ (main inPath outPath sched w).1 = Waiting
      /\ (ConnectToPeers sched tor (GetTorrent tf w).2).1 = None)
  /\ fs (main inPath outPath sched w).2 = fs w
  /\ exists evs,
       trace (main inPath outPath sched w).2 = trace w ++ evs
       /\ Forall (fun ev => is_file_event ev = false) evs.
Proof.
  intros Hopen Hget Hnone. unfold main. run_M'.
  pose proof (Open_world inPath w) as Hw1.
  destruct (Open inPath w) as [[tf' err] w1]; cbn [fst snd] in *.
  subst w1. injection Hopen as -> ->.
  destruct (GetTorrent_success tf w tor Hget) as (_ & Hfs2 & [u Htr2] & _).
  destruct (GetTorrent tf w) as [[[tor' err] tf'] w2]; cbn [fst snd] in *.
  injection Hget as -> ->.
  pose proof (ConnectToPeers_returned tor sched w2) as Hconn.
  pose proof (ConnectToPeers_dials_fs tor sched w2) as Hfs3.
  assert (Htr3 : exists ps, trace (ConnectToPeers sched tor w2).2
                            = trace w2 ++ (EvDial <$> ps)).
  { unfold ConnectToPeers. run_M'.
    destruct (run_dials tor sched
                (mkConnState [] (Dialing <$> peer2peer.Peers tor)) w2)
      as (ps & Htr & _ & _).
    destruct (run tor sched _ w2) as [st w']. cbn [snd] in *.
    exists ps. destruct (forallb is_finished (goroutines st));
      [by case_decide|done]. }
  destruct Htr3 as [ps Htr3].
  assert (Hevs : Forall (fun ev => is_file_event ev = false)
                   ([EvHttpGet u] ++ (EvDial <$> ps))).
  { apply Forall_app. split; [by repeat constructor|].
    apply Forall_fmap. by apply Forall_true. }
  destruct (ConnectToPeers sched tor w2) as [[[cs [e|]]|] w3];
    cbn [fst snd] in *.
  - destruct (Hconn cs (Some e) eq_refl) as (_ & _ & -> & _).
    split; [by left|]. split; [by rewrite Hfs3, Hfs2|].
    eexists. split; [|exact Hevs]. by rewrite Htr3, Htr2, <- app_assoc.
  - destruct (Hconn cs None eq_refl) as (_ & _ & Hcs & Hne).
    rewrite Hnone in Hcs. by apply Permutation_nil_r in Hcs.
  - split; [by right|]. split; [by rewrite Hfs3, Hfs2|].
    eexists. split; [|exact Hevs]. by rewrite Htr3, Htr2, <- app_assoc.
Qed.

End Further.

(** * The further properties at work on the small instances *)

Lemma splitPieceHashes_concat_witness :
  (splitPieceHashes test_info).2 = None
  /\ string_of_list_byte (concat (vec_to_list <$> (splitPieceHashes test_info).1))
     = "aaaaaaaaaaaaaaaaaaaabbbbbbbbbbbbbbbbbbbb".
Proof.
  split; [reflexivity|].
  exact (splitPieceHashes_concat test_info eq_refl).
Defined.

Lemma requestPeers_parse_error_witness :
  url_Parse (Externals := test_externals) ":" = inr "missing protocol scheme"
  /\ requestPeers (H := test_externals)
       (mkTorrentFile ":" (zero_array 20) [] 4 8 "file") (zero_array 20) Port
       test_world
     = (([], Some "missing protocol scheme"),
        mkTorrentFile ":" (zero_array 20) [] 4 8 "file", test_world).
Proof.
  split; [reflexivity|].
  exact (proj2 (requestPeers_parse_error (H := test_externals)
                  (mkTorrentFile ":" (zero_array 20) [] 4 8 "file")
                  (zero_array 20) Port test_world "missing protocol scheme"
                  eq_refl)).
Defined.

Lemma requestPeers_announce_and_hash_only_witness :
  Length test_file <> Length test_file_large
  /\ (requestPeers (H := test_externals) test_file (zero_array 20) Port
        test_world).2
     = (requestPeers (H := test_externals) test_file_large (zero_array 20) Port
          test_world).2.
Proof.
  split; [discriminate|].
  exact (proj2 (requestPeers_announce_and_hash_only (H := test_externals)
                  test_file test_file_large (zero_array 20) Port test_world
                  eq_refl eq_refl)).
Defined.

Lemma buildTrackerURL_drops_query_witness :
  url_Parse (Externals := test_externals_offline) (Announce test_file_query)
    = inl (url.set_RawQuery "passkey=abc"
             (url.mkURL "http" "" None "tracker" "/announce" "" false "" "" ""))
  /\ (buildTrackerURL (H := test_externals_offline) test_file (zero_array 20)
        Port).1
     = (buildTrackerURL (H := test_externals_offline) test_file_query
          (zero_array 20) Port).1.
Proof.
  split; [reflexivity|].
  exact (buildTrackerURL_drops_query (H := test_externals_offline)
           test_file test_file_query (zero_array 20) Port
           (url.mkURL "http" "" None "tracker" "/announce" "" false "" "" "")
           "passkey=abc" eq_refl eq_refl eq_refl).
Defined.

Lemma buildTrackerURL_query_safe_witness :
  exists q,
    buildTrackerURL (H := test_externals) test_file (zero_array 20) Port
    = ((URL_String (Externals := test_externals)
          (url.set_RawQuery q
             (url.mkURL "http" "" None "tracker" "/announce" "" false "" "" "")),
        None), test_file)
    /\ string_forall query_char q = true.
Proof.
  exact (buildTrackerURL_query_safe (H := test_externals) test_file
           (zero_array 20) Port
           (url.mkURL "http" "" None "tracker" "/announce" "" false "" "" "")
           eq_refl).
Defined.

Lemma GetTorrent_announces_itself_witness :
  (GetTorrent (H := test_externals) test_file test_world).1.1.2 = None
  /\ fs (GetTorrent (H := test_externals) test_file test_world).2
     = fs test_world.
Proof.
  split; [reflexivity|].
  destruct (GetTorrent_announces_itself (H := test_externals) test_file
              test_world eq_refl) as (base & _ & _ & Hfs & _).
  exact Hfs.
Defined.

Lemma DownloadToFile_failures_witness :
  Download (Externals := test_externals_offline) test_torrent []
    = inl (replicate 8 "d"%byte)
  /\ fs test_world_offline !! "full" = Some [x01; x02; x03; x04; x05]
  /\ fs (DownloadToFile (H := test_externals_offline) test_file "full"
           test_torrent [] test_world_offline).2 !! "full"
     = Some (replicate 3 "d"%byte).
Proof.
  split; [reflexivity|]. split; [vm_compute; reflexivity|].
  destruct (DownloadToFile_failures (H := test_externals_offline) test_file
              "full" test_torrent [] test_world_offline
              (replicate 8 "d"%byte) eq_refl) as [_ Hwrite].
  exact (proj2 (Hwrite 3 "no space left on device" eq_refl eq_refl)).
Defined.

Lemma main_Seeding_witness :
  (main (H := test_externals) "in.torrent" "out" [3; 1; 0; 3; 1; 2]
     test_world).1 = Seeding (H := test_externals) [104; 102] test_seeded "out"
  /\ ([104; 102] : list nat) ≡ₚ connected (H := test_externals) test_seeded
  /\ peer2peer.Length test_seeded = 8%Z.
Proof.
  assert (Hmain : (main (H := test_externals) "in.torrent" "out"
                     [3; 1; 0; 3; 1; 2] test_world).1
                  = Seeding (H := test_externals) [104; 102] test_seeded "out")
    by (vm_compute; reflexivity).
  destruct (main_Seeding (H := test_externals) "in.torrent" "out"
              [3; 1; 0; 3; 1; 2] test_world [104; 102] test_seeded "out" Hmain)
    as (_ & _ & Hcs & _).
  split; [exact Hmain|]. split; [exact Hcs|reflexivity].
Defined.

Lemma main_no_peer_answers_witness :
  (main (H := test_externals_offline) "in.torrent" "out" (sequential 4)
     test_world_offline).1 = Fatal (H := test_externals_offline) no_peers
  /\ fs (main (H := test_externals_offline) "in.torrent" "out" (sequential 4)
           test_world_offline).2 = fs test_world_offline.
Proof.
  split; [vm_compute; reflexivity|].
  destruct (main_no_peer_answers (H := test_externals_offline) "in.torrent"
              "out" (sequential 4) test_world_offline
              (Open (H := test_externals_offline) "in.torrent"
                 test_world_offline).1.1
              (GetTorrent (H := test_externals_offline)
                 (Open (H := test_externals_offline) "in.torrent"
                    test_world_offline).1.1 test_world_offline).1.1.1)
    as (_ & Hfs & _); [vm_compute; reflexivity..|exact Hfs].
Defined.

Lemma ConnectToPeers_dials_each_once_witness :
  is_Some (ConnectToPeers (H := test_externals) [3; 1; 0; 3; 1; 2; 0; 2]
             test_torrent test_world).1
  /\ exists ps : list nat,
       trace (ConnectToPeers (H := test_externals) [3; 1; 0; 3; 1; 2; 0; 2]
                test_torrent test_world).2
       = trace test_world ++ (EvDial (H := test_externals) <$> ps)
       /\ ps ≡ₚ [1; 2; 3; 4].
Proof.
  assert (Hret : is_Some (ConnectToPeers (H := test_externals)
                            [3; 1; 0; 3; 1; 2; 0; 2] test_torrent test_world).1)
    by (vm_compute; eauto).
  split; [exact Hret|].
  destruct (ConnectToPeers_dials_each_once (H := test_externals) test_torrent
              [3; 1; 0; 3; 1; 2; 0; 2] test_world) as (ps & Htr & _ & _ & Hall).
  exists ps. split; [exact Htr|exact (Hall Hret)].
Defined.

Lemma DownloadToFile_frame_witness :
  fs (DownloadToFile (H := test_externals) test_file "out" test_torrent [100]
        test_world).2 !! "in.torrent"
  = fs test_world !! "in.torrent".
Proof.
  apply (proj1 (DownloadToFile_frame (H := test_externals) test_file "out"
                  test_torrent [100] test_world)).
  discriminate.
Defined.

